(** * troppo: the GIMME reconstruction pipeline, its property bag and the
      wrapper entry points.

    Shallow embedding of
      - src/reconstruction/methods/gimme.py            (Module GIMME)
      - src/reconstruction/reconstruction_properties.py (Module Properties)
      - src/troppo/methods_wrappers.py   (Modules Wrapper, Omics, Gapfill)

    Numbers.  numpy float arrays are lists of rationals [Q]; every
    comparison the code performs is a boolean test on [Q].  Values that the
    code copies from one array to another are related by Leibniz equality,
    values it compares by [Qeq], [Qlt], [Qle].

    Reading of gimme.py.  The file is a work in progress.  The one thing
    read away is the unbalanced bracket on line 86, without which the module
    does not load.  Everything else has the meaning Python and numpy give
    it, also where that is not what the surrounding code expects: a name
    bound nowhere raises [NameError] ([S], [lb], [ub] on line 23,
    [rx_mapping] on line 86), so [preprocess] and [make_irreversible] end
    at these lines whatever their input and [run] with them; a call that
    leaves out a required argument raises [TypeError] (line 63);
    [S[:, -irrev]] is indexing with the negated indices, [kv[0]] of an item
    is its key, a loop over a dict yields its keys, an [if] without [else]
    does nothing in the other case.  What follows a line that always raises
    is modelled by itself, as a function of the values it reads: the loops
    of lines 26-30 and 91-96, lines 55, 57-59 and 68, the two helper
    methods, and the engine of lines 43-70.

    Reading of reconstruction_properties.py.  [ndarray] and [array] are
    imported nowhere in the module; reading either raises [NameError]. *)

From Stdlib Require Import String Bool ZArith QArith List Lia DecimalString.
Import ListNotations.

Local Open Scope Q_scope.

(** ** Python and numpy primitives *)

Module Py.

(** The built-in exceptions the modelled code can raise; [Exception] stands
    for any other exception object, such as one raised by a collaborator. *)
Inductive exn : Type :=
| IndexError
| KeyError
| NameError
| TypeError
| ValueError
| Exception (msg : string).

(** Outcome of a Python expression or statement: a value or a raised
    exception. *)
Inductive result (A : Type) : Type :=
| Ok (a : A)
| Raise (e : exn).
Arguments Ok {A} a.
Arguments Raise {A} e.

Definition bind {A B : Type} (c : result A) (k : A -> result B) : result B :=
  match c with
  | Ok a => k a
  | Raise e => Raise e
  end.

Notation "x <- c ;; k" := (bind c (fun x => k))
  (at level 61, c at next level, right associativity).

Fixpoint mapM {A B : Type} (f : A -> result B) (l : list A) : result (list B) :=
  match l with
  | [] => Ok []
  | x :: rest =>
      y <- f x ;;
      ys <- mapM f rest ;;
      Ok (y :: ys)
  end.

Fixpoint foldM {A S : Type} (f : S -> A -> result S) (l : list A) (s : S)
  : result S :=
  match l with
  | [] => Ok s
  | x :: rest =>
      s' <- f s x ;;
      foldM f rest s'
  end.

(** [x < y] on floats. *)
Definition Qltb (x y : Q) : bool :=
  (Qnum x * QDen y <? Qnum y * QDen x)%Z.

(** [x != 0] on floats, the test behind [np.nonzero]. *)
Definition Qnonzero (x : Q) : bool := negb (Qeq_bool x 0).

(** [range(n)]. *)
Definition range (n : nat) : list Z := map Z.of_nat (seq 0 n).

(** [enumerate(l)]. *)
Definition enumerate {A : Type} (l : list A) : list (Z * A) :=
  combine (range (length l)) l.

(** [np.zeros(n)]. *)
Definition zeros (n : nat) : list Q := repeat 0 n.

(** Position denoted by the integer index [j] on an axis of size [n]:
    negative indices count from the end, anything outside [-n, n) is out
    of bounds. *)
Definition norm_index (n : nat) (j : Z) : option nat :=
  if ((0 <=? j) && (j <? Z.of_nat n))%Z then Some (Z.to_nat j)
  else if ((- Z.of_nat n <=? j) && (j <? 0))%Z
       then Some (Z.to_nat (Z.of_nat n + j))
       else None.

(** [l[j]]. *)
Definition getitem {A : Type} (l : list A) (j : Z) : result A :=
  match norm_index (length l) j with
  | Some k =>
      match nth_error l k with
      | Some x => Ok x
      | None => Raise IndexError
      end
  | None => Raise IndexError
  end.

Fixpoint list_set {A : Type} (l : list A) (k : nat) (v : A) : list A :=
  match l, k with
  | [], _ => []
  | _ :: rest, O => v :: rest
  | x :: rest, S k' => x :: list_set rest k' v
  end.

(** [l[j] = v]; raises out of range, as numpy and Python lists do. *)
Definition setitem {A : Type} (l : list A) (j : Z) (v : A) : result (list A) :=
  match norm_index (length l) j with
  | Some k => Ok (list_set l k v)
  | None => Raise IndexError
  end.

(** [a[mask] = v] for a boolean mask: the mask must have the shape of the
    array. *)
Definition mask_assign (a : list Q) (mask : list bool) (v : Q)
  : result (list Q) :=
  if Nat.eqb (length a) (length mask)
  then Ok (map (fun p : Q * bool => if snd p then v else fst p)
             (combine a mask))
  else Raise IndexError.

(** *** Dictionaries

    A dict keeps its keys in insertion order; assigning to a key that is
    present replaces the value in place. *)
Section Dict.
Context {K V : Type}.
Variable eqb : K -> K -> bool.

Definition dict : Type := list (K * V).

Fixpoint dict_get (d : dict) (k : K) : result V :=
  match d with
  | [] => Raise KeyError
  | (k', v) :: rest => if eqb k k' then Ok v else dict_get rest k
  end.

Fixpoint dict_set (d : dict) (k : K) (v : V) : dict :=
  match d with
  | [] => [(k, v)]
  | (k', v') :: rest =>
      if eqb k k' then (k', v) :: rest else (k', v') :: dict_set rest k v
  end.

(** [d.update(other)]. *)
Definition dict_update (d other : dict) : dict :=
  fold_left (fun acc kv => dict_set acc (fst kv) (snd kv)) other d.

(** [{k: v for ...}] from the pairs a comprehension generates. *)
Definition dict_of (items : list (K * V)) : dict := dict_update [] items.

Definition dict_keys (d : dict) : list K := map fst d.
End Dict.

End Py.

Import Py.

(** ** gimme.py *)

Module GIMME.

(** A one-dimensional float array. *)
Definition vector : Type := list Q.

(** A stoichiometric matrix, held as the list of its columns (one per
    reaction): the code only ever selects, stacks, negates and counts
    columns.  [S.shape[1]] is the length of the list. *)
Definition matrix : Type := list vector.

(** An entry of the irreversibility map: an [int] for a reaction kept as it
    is, a 2-tuple (first slot, second slot) for a split reaction. *)
Inductive rxmap : Type :=
| Single (j : Z)
| Pair (fwd bwd : Z).

Definition mapping : Type := @dict Z rxmap.

(** The new indices an entry of the map claims. *)
Definition slots (new : rxmap) : list Z :=
  match new with
  | Single j => [j]
  | Pair f b => [f; b]
  end.

Fixpoint filterM {A : Type} (f : A -> result bool) (l : list A)
  : result (list A) :=
  match l with
  | [] => Ok []
  | x :: rest =>
      b <- f x ;;
      ys <- filterM f rest ;;
      Ok (if b then x :: ys else ys)
  end.

(** [lb[i] < 0 and ub[i] > 0]; [and] reads [ub[i]] only when the first
    test holds. *)
Definition is_reversible (lb ub : vector) (i : Z) : result bool :=
  l <- getitem lb i ;;
  if Qltb l 0 then (u <- getitem ub i ;; Ok (Qltb 0 u)) else Ok false.

(** Line 82: [[i for i in range(self.S.shape[1]) if not (lb[i] < 0 and
    ub[i] > 0)]]. *)
Definition irrev_of (n : nat) (lb ub : vector) : result (list Z) :=
  filterM (fun i => r <- is_reversible lb ub i ;; Ok (negb r)) (range n).

(** [np.array(l)] used as an index: the array of an empty list has float
    dtype, which numpy refuses as an index. *)
Definition index_array (l : list Z) : result (list Z) :=
  match l with
  | [] => Raise IndexError
  | _ => Ok l
  end.

(** [S[:, idx]] for an integer index array. *)
Definition take_columns (S : matrix) (idx : list Z) : result matrix :=
  mapM (getitem S) idx.

(** The reactions of the model that are not in [irrev], the reversible
    ones: [[i for i in range(S.shape[1]) if i not in irrev]], as line 86
    writes them. *)
Definition rev_of (n : nat) (irrev : list Z) : list Z :=
  filter (fun i => negb (existsb (Z.eqb i) irrev)) (range n).

(** Lines 92-96, the body of the loop over [rx_mapping.items()]. *)
Definition assign_bounds (lb ub : vector) (st : vector * vector)
  (item : Z * rxmap) : result (vector * vector) :=
  let (nlb, nub) := st in
  let (orig_rx, new_rx) := item in
  match new_rx with
  | Pair f b =>
      l <- getitem lb orig_rx ;;
      nub1 <- setitem nub f l ;;
      u <- getitem ub orig_rx ;;
      nub2 <- setitem nub1 b u ;;
      Ok (nlb, nub2)
  | Single j =>
      l <- getitem lb orig_rx ;;
      u <- getitem ub orig_rx ;;
      nlb' <- setitem nlb j l ;;
      nub' <- setitem nub j u ;;
      Ok (nlb', nub')
  end.

(** Lines 82-84: the irreversible reactions, their columns [Si] and the
    block [Sr = S[:, -irrev]]; for an integer array, [-irrev] is the array
    of the negated indices.  [offset] is [Si.shape[1]]. *)
Definition split_columns (S : matrix) (lb ub : vector)
  : result (list Z * matrix * matrix) :=
  irrev <- irrev_of (length S) lb ub ;;
  idx <- index_array irrev ;;
  Si <- take_columns S idx ;;
  Sr <- take_columns S (map Z.opp idx) ;;
  Ok (irrev, Si, Sr).

(** [make_irreversible(S, lb, ub)].  Line 86 calls [rx_mapping.update]:
    the name [rx_mapping] is read first, and nothing binds it, in the
    method, in the module (lines 1-6 bind [np], two classes of cobamp and
    [GIMME]) or among the builtins.  Lines 87-98 are never reached; the
    loop of lines 91-96 is [assign_all_bounds] below. *)
Definition make_irreversible (S : matrix) (lb ub : vector)
  : result (matrix * vector * vector * mapping) :=
  cols <- split_columns S lb ub ;;
  Raise NameError.

(** Lines 91-96: the loop over [rx_mapping.items()], from the map and the
    two bound arrays as they are when it starts. *)
Definition assign_all_bounds (lb ub : vector) (rx_mapping : mapping)
  (nlb nub : vector) : result (vector * vector) :=
  foldM (assign_bounds lb ub) rx_mapping (nlb, nub).

(** What the loop leaves in the slots of one entry of the map: the bounds
    of the original reaction, placed as lines 93-96 place them. *)
Definition bounds_written (lb ub : vector) (item : Z * rxmap)
  (st : vector * vector) : Prop :=
  exists l u,
    getitem lb (fst item) = Ok l /\ getitem ub (fst item) = Ok u /\
    match snd item with
    | Pair f b => getitem (snd st) f = Ok l /\ getitem (snd st) b = Ok u
    | Single j => getitem (fst st) j = Ok l /\ getitem (snd st) j = Ok u
    end.

(** Two entries of the map that share no new index. *)
Definition apart (a b : Z * rxmap) : Prop :=
  forall s s', In s (slots (snd a)) -> In s' (slots (snd b)) -> s <> s'.

(** An entry whose new indices are non-negative and, for a tuple,
    distinct. *)
Definition proper (a : Z * rxmap) : Prop :=
  (forall s, In s (slots (snd a)) -> (0 <= s)%Z) /\
  match snd a with
  | Pair f b => f <> b
  | Single _ => True
  end.

(** Lines 28-30, the body of the loop over [exp_rxns.items()]: the [if] has
    no [else]. *)
Definition assign_evidence (m : mapping) (exp_vector : vector)
  (item : Z * Q) : result vector :=
  rx <- dict_get Z.eqb m (fst item) ;;
  match rx with
  | Pair f b =>
      v1 <- setitem exp_vector f (snd item) ;;
      setitem v1 b (snd item)
  | Single _ => Ok exp_vector
  end.

(** Lines 26-30: the evidence vector over the irreversible reactions. *)
Definition expression_vector (n : nat) (m : mapping) (exp_rxns : @dict Z Q)
  : result vector :=
  foldM (assign_evidence m) exp_rxns (zeros n).

(** [np.nonzero(v)[0]]. *)
Definition nonzero (v : vector) : list Z :=
  map fst (filter (fun p : Z * Q => Qnonzero (snd p)) (enumerate v)).

(** [adjust_objective_to_irreversible(S_new, objective, mapping)]: a tuple
    entry used as the index of a one-dimensional array is an index with too
    many dimensions. *)
Definition adjust_objective_to_irreversible (S_new : matrix)
  (objective : vector) (m : mapping) : result vector :=
  foldM (fun objective_new id =>
           rx <- dict_get Z.eqb m id ;;
           w <- getitem objective id ;;
           match rx with
           | Single j => setitem objective_new j w
           | Pair _ _ => Raise IndexError
           end)
    (nonzero objective) (zeros (length S_new)).

(** What [GIMME] reads of its property bag, a dict: an entry is [None] when
    the key is absent.  ['obj_frac'] is read on line 39 and used nowhere. *)
Record properties : Type := {
  obj_frac : option Q;
  expression_rxns : option (@dict Z Q);
  objectives : option (list vector);
  flux_threshold : option Q
}.

(** [self.properties[key]]. *)
Definition property {A : Type} (entry : option A) : result A :=
  match entry with
  | Some a => Ok a
  | None => Raise KeyError
  end.

(** Lines 14-15: [if 'obj_frac' not in self.properties:
    self.properties['obj_frac'] = 0.9]. *)
Definition with_default_obj_frac (props : properties) : properties :=
  match obj_frac props with
  | Some _ => props
  | None =>
      {| obj_frac := Some (9 # 10);
         expression_rxns := expression_rxns props;
         objectives := objectives props;
         flux_threshold := flux_threshold props |}
  end.

(** [preprocess()]: what it returns or raises, and the property bag as it
    leaves it.  The arguments [S], [lb], [ub] of the call on line 23 are
    plain names, not attributes of [self]; nothing binds them, so reading
    the first one raises [NameError] before [make_irreversible] is entered.
    Lines 26-35 are never reached; the loop of lines 26-30 is
    [expression_vector] above. *)
Definition preprocess (S : matrix) (lb ub : vector) (props : properties)
  : result (matrix * vector * vector * mapping * vector * list vector)
    * properties :=
  let props := with_default_obj_frac props in
  (exp_rxns <- property (expression_rxns props) ;;
   obj_exps <- property (objectives props) ;;
   Raise NameError,
   props).

(** Line 55: [[flux_thres - exp_vector[i] if -1 < exp_vector[i] <
    flux_thres else 0 for i in range(N)]]. *)
Definition gimme_model_objective (flux_thres : Q) (exp_vector : vector)
  (N : nat) : result vector :=
  mapM (fun i =>
          e <- getitem exp_vector i ;;
          Ok (if Qltb (-1) e && Qltb e flux_thres
              then flux_thres - e else 0))
    (range N).

(** [a * b] for an array [a] and a float [b]. *)
Definition scale (a : vector) (b : Q) : vector := map (fun x => x * b) a.

(** [a + b] for two arrays: element by element, an array of one element
    being stretched to the length of the other. *)
Definition vec_add (a b : vector) : result vector :=
  if Nat.eqb (length a) (length b)
  then Ok (map (fun p : Q * Q => fst p + snd p) (combine a b))
  else match a, b with
       | [x], _ => Ok (map (fun y => x + y) b)
       | _, [y] => Ok (map (fun x => x + y) a)
       | _, _ => Raise ValueError
       end.

(** The value of the built-in [sum] over a list of arrays: the integer 0
    it starts from when the list is empty, an array otherwise. *)
Inductive pysum : Type :=
| Int0
| Arr (v : vector).

(** [sum(terms)]: 0 + a is a. *)
Definition py_sum (terms : list vector) : result pysum :=
  foldM (fun acc t =>
           match acc with
           | Int0 => Ok (Arr t)
           | Arr v => r <- vec_add v t ;; Ok (Arr r)
           end)
    terms Int0.

(** Line 57: [sum(list(map(lambda a,b: a*b, objectives,
    objective_values)))]. *)
Definition objective_lbs_of (objs : list vector) (objective_values : list Q)
  : result pysum :=
  py_sum (map (fun p : vector * Q => scale (fst p) (snd p))
            (combine objs objective_values)).

(** Lines 58-59: [objective_ids = np.nonzero(objective_lbs)[0]] and
    [lb[objective_ids] = objective_lbs[objective_ids]].  The integer 0 of
    an empty sum cannot be subscripted. *)
Definition tighten (lb : vector) (objective_lbs : pysum) : result vector :=
  match objective_lbs with
  | Int0 => Raise TypeError
  | Arr v =>
      foldM (fun acc id => x <- getitem v id ;; setitem acc id x)
        (nonzero v) lb
  end.

(** *** The solver, an external collaborator *)

Inductive Status : Type :=
| Optimal
| Infeasible
| Unbounded.

(** What [optimize()] returns; [var_values()] is a dict from variable name
    to value. *)
Record Solution : Type := {
  status : Status;
  objective_value : Q;
  var_values : @dict string Q
}.

(** [SteadyStateLinearSystem(S, lb, ub, var_names)]. *)
Record LinearSystem : Type := {
  ls_S : matrix;
  ls_lb : vector;
  ls_ub : vector;
  ls_var_names : list string
}.

(** A system with its objective set. *)
Record Problem : Type := {
  system : LinearSystem;
  objective : vector;
  minimize : bool
}.

(** [system.set_objective(coefficients, minimize)] of cobamp's linear
    systems: both arguments are required.  [flag] is [None] for a call that
    leaves the second one out, which Python refuses with [TypeError] before
    the method runs. *)
Definition set_objective (sys : LinearSystem) (coefficients : vector)
  (flag : option bool) : result Problem :=
  match flag with
  | Some b => Ok {| system := sys; objective := coefficients; minimize := b |}
  | None => Raise TypeError
  end.

(** [str(i)]. *)
Definition py_str (i : Z) : string := NilZero.string_of_int (Z.to_int i).

Definition var_names (prefix : string) (n : nat) : list string :=
  map (fun i => (prefix ++ py_str i)%string) (range n).

(** [x > 0] for an array built from strings: the array of an empty list is
    a float array, any other has no ordering against an integer. *)
Definition greater_zero_str (a : list string) : result (list bool) :=
  match a with
  | [] => Ok []
  | _ => Raise TypeError
  end.

(** [get_reaction_activity(solution, exp_vector, flux_threshold)].  Line
    101 keeps [kv[0]] of every item of [var_values()], the variable name. *)
Definition get_reaction_activity (solution : Solution) (exp_vector : vector)
  (flux_threshold : Q) : result vector :=
  let gimme_fluxes :=
    map (fun ikv : Z * (string * Q) => fst (snd ikv))
      (enumerate (var_values solution)) in
  let activity := zeros (length gimme_fluxes) in
  a1 <- mask_assign activity
          (map (fun e => Qltb flux_threshold e || Qeq_bool e (-1)) exp_vector)
          1 ;;
  m2 <- greater_zero_str gimme_fluxes ;;
  mask_assign a1 m2 2.

(** [orig, new = k] for an integer [k]. *)
Definition unpack_int (k : Z) : result (Z * rxmap) := Raise TypeError.

(** [np.max(a[new])]: an integer selects one element; a tuple of two
    integers indexes two axes, which a one-dimensional array has not. *)
Definition max_at (a : vector) (new : rxmap) : result Q :=
  match new with
  | Single j => getitem a j
  | Pair _ _ => Raise IndexError
  end.

(** Line 68: [[np.max(a[new]) for orig, new in irrev_mapping]]; iterating
    over a dict yields its keys. *)
Definition fold_back (a : vector) (m : mapping) : result vector :=
  mapM (fun k => p <- unpack_int k ;; max_at a (snd p)) (dict_keys m).

(** *** The engine: a run threads the sequence of problems handed to the
    solver. *)

Section Engine.

Variable optimize : Problem -> Solution.

Definition Eng (A : Type) : Type := list Problem -> result A * list Problem.

Definition eret {A : Type} (a : A) : Eng A := fun t => (Ok a, t).

Definition ebind {A B : Type} (c : Eng A) (k : A -> Eng B) : Eng B :=
  fun t =>
    match c t with
    | (Ok a, t') => k a t'
    | (Raise e, t') => (Raise e, t')
    end.

Definition lift {A : Type} (r : result A) : Eng A := fun t => (r, t).

(** [lso.optimize()] on a system with its objective set. *)
Definition solve (p : Problem) : Eng Solution :=
  fun t => (Ok (optimize p), t ++ [p]).

Notation "x <-- c ;; k" := (ebind c (fun x => k))
  (at level 61, c at next level, right associativity).

Fixpoint emapM {A B : Type} (f : A -> Eng B) (l : list A) : Eng (list B) :=
  match l with
  | [] => eret []
  | x :: rest =>
      y <-- f x ;;
      ys <-- emapM f rest ;;
      eret (y :: ys)
  end.

(** Lines 48-51. *)
Definition find_objective_value (lsystem : LinearSystem) (obj : vector)
  : Eng Q :=
  p <-- lift (set_objective lsystem obj (Some false)) ;;
  sol <-- solve p ;;
  eret (objective_value sol).

(** Line 53: [list(map(find_objective_value, objectives))]. *)
Definition find_objective_values (lsystem : LinearSystem)
  (objs : list vector) : Eng (list Q) :=
  emapM (find_objective_value lsystem) objs.

(** Lines 43-70, as a function of what line 42 unpacks.  Line 63 calls
    [set_objective] with the coefficients alone. *)
Definition engine (flux_thres : Q)
  (pre : matrix * vector * vector * mapping * vector * list vector)
  : Eng vector :=
  let '(Sn, lb, ub, irrev_map, exp_vector, objs) := pre in
  let N := length Sn in
  let lsystem := {| ls_S := Sn; ls_lb := lb; ls_ub := ub;
                    ls_var_names := var_names "V" N |} in
  objective_values <-- find_objective_values lsystem objs ;;
  penalty <-- lift (gimme_model_objective flux_thres exp_vector N) ;;
  objective_lbs <-- lift (objective_lbs_of objs objective_values) ;;
  lb' <-- lift (tighten lb objective_lbs) ;;
  let gimme_system := {| ls_S := Sn; ls_lb := lb'; ls_ub := ub;
                         ls_var_names := var_names "GIMME" N |} in
  p <-- lift (set_objective gimme_system penalty None) ;;
  gimme_solution <-- solve p ;;
  act <-- lift (get_reaction_activity gimme_solution exp_vector flux_thres) ;;
  lift (fold_back act irrev_map).

(** [run()]: lines 39-40 read ['obj_frac'] and ['flux_threshold'] before
    line 42 calls [preprocess]. *)
Definition run (S : matrix) (lb ub : vector) (props : properties)
  : Eng vector :=
  _ <-- lift (property (obj_frac props)) ;;
  flux_thres <-- lift (property (flux_threshold props)) ;;
  pre <-- lift (fst (preprocess S lb ub props)) ;;
  engine flux_thres pre.

End Engine.

End GIMME.

(** ** reconstruction_properties.py *)

Module Properties.

(** The values held by the property bag of [GIMMEProperties]. *)
Inductive value : Type :=
| VBool (b : bool)
| VFloat (q : Q)
| VList (l : list Q)
| VVectors (l : list (list Q))
| VArray (a : list Q)
| VArray2 (rows : list (list Q)).

(** The bag itself is a dict keyed by option name. *)
Definition bag : Type := @dict string value.

(** The argument [obj_frac], of one of the types its validator on line 35
    lists: [ndarray], [list], [tuple] or [float]. *)
Inductive obj_frac_arg : Type :=
| FracFloat (q : Q)
| FracArray (a : list Q)
| FracList (l : list Q)
| FracTuple (l : list Q).

(** The names bound at module level: the imports of lines 1-4 and the
    three classes.  numpy is imported nowhere. *)
Definition module_names : list string :=
  ["PropertyDictionary"; "model_readers"; "MethodsReconstruction";
   "PropertiesReconstruction"; "FastcoreProperties";
   "GIMMEProperties"]%string.

(** Reading a name that is neither a local of the function nor a builtin:
    bound at module level, or [NameError]. *)
Definition global_name (n : string) : result unit :=
  if existsb (String.eqb n) module_names then Ok tt else Raise NameError.

(** Line 32, for a list: [isinstance(x, list) and len(x) > 0 or
    isinstance(x, ndarray)]; [ndarray] is read only when the list is
    empty. *)
Definition valid_exp_vector (x : list Q) : result bool :=
  match x with
  | [] => _ <- global_name "ndarray" ;; Ok false
  | _ :: _ => Ok true
  end.

(** Line 33: [isinstance(x, bool) or x is None]. *)
Definition valid_preprocess (x : value) : result bool :=
  Ok (match x with
      | VBool _ => true
      | _ => false
      end).

(** Line 34, for a list: [type(x) in [list, ndarray]]; the list of types is
    built, and [ndarray] read, before the membership test. *)
Definition valid_objectives (x : list (list Q)) : result bool :=
  _ <- global_name "ndarray" ;;
  Ok true.

(** Line 35: [type(x) in [ndarray, list, tuple, float]]. *)
Definition valid_obj_frac (x : value) : result bool :=
  _ <- global_name "ndarray" ;;
  Ok (match x with
      | VFloat _ | VList _ | VArray _ | VArray2 _ => true
      | _ => false
      end).

(** Line 11: ['flux_threshold': float]. *)
Definition valid_flux_threshold (x : value) : result bool :=
  Ok (match x with
      | VFloat _ => true
      | _ => false
      end).

(** [self[key] = value] on the external [PropertyDictionary].  [checks]
    tells whether the dictionary runs the validator registered for the key
    before it stores the value; a value the validator refuses raises an
    exception of the dictionary's own. *)
Definition assign (checks : bool) (b : bag) (key : string)
  (valid : result bool) (v : value) : result bag :=
  if checks
  then ok <- valid ;;
       if ok then Ok (dict_set String.eqb b key v)
       else Raise (Exception "refused")
  else Ok (dict_set String.eqb b key v).

(** [array([x] * k)]: [k] copies of a float give a one-dimensional array,
    [k] copies of a sequence a two-dimensional one. *)
Definition array_of_copies (x : obj_frac_arg) (k : nat) : value :=
  match x with
  | FracFloat q => VArray (repeat q k)
  | FracArray l | FracList l | FracTuple l =>
      match k with
      | O => VArray []
      | _ => VArray2 (repeat l k)
      end
  end.

(** Line 42: [obj_frac if isinstance(obj_frac, ndarray) else
    array([obj_frac]*len(objectives))]; the test reads [ndarray], the
    [else] branch reads [array]. *)
Definition stored_obj_frac (obj_frac : obj_frac_arg) (k : nat)
  : result value :=
  _ <- global_name "ndarray" ;;
  match obj_frac with
  | FracArray a => Ok (VArray a)
  | other => _ <- global_name "array" ;; Ok (array_of_copies other k)
  end.

(** Line 43: [True if preprocess else False], for an argument that is a
    [bool] or [None]. *)
Definition stored_preprocess (preprocess : option bool) : value :=
  match preprocess with
  | Some true => VBool true
  | Some false | None => VBool false
  end.

(** Line 44: [1e-4 if flux_threshold is None else flux_threshold]. *)
Definition stored_flux_threshold (flux_threshold : option Q) : value :=
  match flux_threshold with
  | None => VFloat (1 # 10000)
  | Some q => VFloat q
  end.

(** The defaults of the signature on line 30. *)
Definition default_obj_frac : obj_frac_arg := FracFloat (9 # 10).
Definition default_preprocess : option bool := Some false.
Definition default_flux_threshold : option Q := None.

(** Lines 40-44 of [GIMMEProperties.__init__]: the five assignments, in
    order, each right-hand side evaluated before it is assigned. *)
Definition GIMMEProperties (checks : bool) (exp_vector : list Q)
  (objectives : list (list Q)) (obj_frac : obj_frac_arg)
  (preprocess : option bool) (flux_threshold : option Q) : result bag :=
  b1 <- assign checks [] "objectives" (valid_objectives objectives)
          (VVectors objectives) ;;
  b2 <- assign checks b1 "exp_vector" (valid_exp_vector exp_vector)
          (VList exp_vector) ;;
  frac <- stored_obj_frac obj_frac (length objectives) ;;
  b3 <- assign checks b2 "obj_frac" (valid_obj_frac frac) frac ;;
  let p := stored_preprocess preprocess in
  b4 <- assign checks b3 "preprocess" (valid_preprocess p) p ;;
  let t := stored_flux_threshold flux_threshold in
  assign checks b4 "flux_threshold" (valid_flux_threshold t) t.

End Properties.

(** ** methods_wrappers.py *)

Module Wrapper.

(** Lines 221-222: the names of the reactions the algorithm returned and
    the inclusion map over all reaction identifiers. *)
Definition render (r_ids : list string) (algorithm_result : list Z)
  : result (@dict string bool) :=
  result_names <- mapM (getitem r_ids) algorithm_result ;;
  Ok (dict_of String.eqb
        (map (fun k => (k, existsb (String.eqb k) result_names)) r_ids)).

(** Line 229: [{r: False for r in self.model_reader.r_ids}]. *)
Definition all_false (r_ids : list string) : @dict string bool :=
  dict_of String.eqb (map (fun r => (r, false)) r_ids).

(** The default of the keyword [raise_errors] on line 166. *)
Definition default_raise_errors : bool := true.

(** What a call leaves behind: the lines printed and the value returned or
    the exception raised. *)
Record outcome : Type := {
  printed : list (string * exn);
  returned : result (@dict string bool)
}.

(** Lines 219-229 of [run_from_omics]: [run_result] is what
    [self.run(properties)] does; [raise_errors] is [None] when the caller
    leaves the keyword out. *)
Definition run_from_omics (r_ids : list string)
  (run_result : result (list Z)) (raise_errors : option bool) : outcome :=
  let raise_errors :=
    match raise_errors with
    | Some b => b
    | None => default_raise_errors
    end in
  match (algorithm_result <- run_result ;; render r_ids algorithm_result) with
  | Ok d => {| printed := []; returned := Ok d |}
  | Raise e =>
      {| printed := [("Model reconstruction failed with exception:"%string, e)];
         returned := if raise_errors then Raise e else Ok (all_false r_ids) |}
  end.

End Wrapper.

(** ** Fixtures for the scenarios *)

Module Fixture.

Import GIMME.

(** A solver double: of two objectives over two reactions it reports the
    one that weights the second reaction infeasible and the other optimal
    with value 1. *)
Definition solver (p : Problem) : Solution :=
  match objective p with
  | _ :: w :: _ =>
      if Qnonzero w
      then {| status := Infeasible; objective_value := 0; var_values := [] |}
      else {| status := Optimal; objective_value := 1; var_values := [] |}
  | _ =>
      {| status := Optimal; objective_value := 0; var_values := [] |}
  end.

(** Two irreversible reactions and no metabolite, as line 45 wraps them,
    and one objective for each. *)
Definition two_reactions : LinearSystem :=
  {| ls_S := [[]; []]; ls_lb := [0; 0]; ls_ub := [1; 1];
     ls_var_names := var_names "V" 2 |}.

Definition two_objectives : list vector := [[1; 0]; [0; 1]].

End Fixture.

(** ** methods_wrappers.py: the registries and [run_from_omics] before the
       [try] *)

Module Omics.

(** The reconstruction algorithms the wrapper dispatches to. *)
Inductive algorithm : Type :=
| AlgFASTcore
| AlgGIMME
| AlgIMAT
| AlgtINIT
| AlgCORDA
| AlgSWIFTCORE.

(** Lines 26-33, [algorithm_instance_map]. *)
Definition algorithm_instance_map : @dict string algorithm :=
  [("fastcore"%string, AlgFASTcore); ("gimme"%string, AlgGIMME);
   ("imat"%string, AlgIMAT); ("tinit"%string, AlgtINIT);
   ("corda"%string, AlgCORDA); ("swiftcore"%string, AlgSWIFTCORE)].

(** The integration strategy classes of [.omics.integration]. *)
Inductive strategy_class : Type :=
| ContinuousScoreIntegrationStrategy
| CustomSelectionIntegrationStrategy
| ThresholdSelectionIntegrationStrategy
| DefaultCoreIntegrationStrategy
| AdjustedScoreIntegrationStrategy.

(** Lines 35-41, [integration_strategy_map]. *)
Definition integration_strategy_map : @dict string strategy_class :=
  [("continuous"%string, ContinuousScoreIntegrationStrategy);
   ("custom"%string, CustomSelectionIntegrationStrategy);
   ("threshold"%string, ThresholdSelectionIntegrationStrategy);
   ("default_core"%string, DefaultCoreIntegrationStrategy);
   ("adjusted_score"%string, AdjustedScoreIntegrationStrategy)].

(** Line 192: [{r: i for i, r in enumerate(self.model_reader.r_ids)}]. *)
Definition ordered_ids (r_ids : list string) : @dict string Z :=
  dict_of String.eqb
    (map (fun p : Z * string => (snd p, fst p)) (enumerate r_ids)).

(** An element of a list or tuple of scores: a sequence of reaction
    identifiers, or a string. *)
Inductive item : Type :=
| ItemIds (ids : list string)
| ItemStr (s : string).

(** What [scores] can be on line 208: a dict from reaction identifier to
    score, a list or tuple, or another iterable of identifiers (which only
    an integration strategy can return). *)
Inductive scores : Type :=
| ScoresDict (d : @dict string Q)
| ScoresSeq (l : list item)
| ScoresIter (ids : list string).

(** What [res] can be after line 215. *)
Inductive res : Type :=
| ResScores (l : list Q)
| ResNested (l : list (list Z))
| ResFlat (l : list Z).

(** Iterating over a string yields its characters, each a string of
    length one. *)
Fixpoint chars (s : string) : list string :=
  match s with
  | EmptyString => []
  | String c rest => String c EmptyString :: chars rest
  end.

(** [for k in x]. *)
Definition iterate (x : item) : list string :=
  match x with
  | ItemIds ids => ids
  | ItemStr s => chars s
  end.

(** Lines 208-215. *)
Definition to_res (r_ids : list string) (sc : scores) : result res :=
  match sc with
  | ScoresDict d =>
      l <- mapM (dict_get String.eqb d) r_ids ;;
      Ok (ResScores l)
  | ScoresSeq [] => Ok (ResFlat [])
  | ScoresSeq l =>
      n <- mapM (fun x => mapM (dict_get String.eqb (ordered_ids r_ids))
                            (iterate x)) l ;;
      Ok (ResNested n)
  | ScoresIter ids =>
      f <- mapM (dict_get String.eqb (ordered_ids r_ids)) ids ;;
      Ok (ResFlat f)
  end.

Section RunFromOmics.

(** The collaborators: the argument and the instances of the strategy
    classes, the omics container, the property objects; the constructor of
    a strategy class, [strat.integrate] applied to the container's
    integrated data map, the factory [from_integrated_scores] of an
    algorithm's property class (with the keyword arguments of the call),
    and [self.run]. *)
Variables Arg Strategy Container Props : Type.
Variable construct : strategy_class -> Arg -> result Strategy.
Variable integrate : Strategy -> Container -> result scores.
Variable from_integrated_scores : algorithm -> res -> result Props.
Variable run : Props -> result (list Z).

(** The argument [integration_strategy]: a string, a list or tuple
    [(name, argument)], or a strategy instance. *)
Inductive strategy_arg : Type :=
| StratStr (s : string)
| StratSeq (name : string) (arg : Arg)
| StratObj (st : Strategy).

(** The argument [omics_data]. *)
Inductive omics_data : Type :=
| DataContainer (c : Container)
| DataDict (d : @dict string Q)
| DataSeq (l : list item)
| DataOther.

(** The default of the keyword [integration_strategy] on line 165. *)
Definition default_integration_strategy : strategy_arg :=
  StratStr "continuous".

(** Lines 189-190, [tuple_to_strat]. *)
Definition tuple_to_strat (name : string) (arg : Arg) : result Strategy :=
  cls <- dict_get String.eqb integration_strategy_map name ;;
  construct cls arg.

(** Lines 195-196: only a list or tuple is turned into a strategy; any
    other value, a string included, is kept as it is. *)
Definition resolve (s : strategy_arg) : result (string + Strategy) :=
  match s with
  | StratSeq name arg => st <- tuple_to_strat name arg ;; Ok (inr st)
  | StratStr name => Ok (inl name)
  | StratObj st => Ok (inr st)
  end.

(** Lines 198-206.  A string has no attribute [integrate]. *)
Definition get_scores (strat : string + Strategy) (data : omics_data)
  : result scores :=
  match data with
  | DataContainer c =>
      match strat with
      | inl _ => Raise (Exception "AttributeError")
      | inr st => integrate st c
      end
  | DataDict d => Ok (ScoresDict d)
  | DataSeq l => Ok (ScoresSeq l)
  | DataOther => Raise TypeError
  end.

(** Lines 192-217, everything before the [try]; [and_or_funcs] is a pair. *)
Definition prepare (r_ids : list string) (data : omics_data)
  (algorithm_name : string) (strategy : strategy_arg) : result Props :=
  strat <- resolve strategy ;;
  sc <- get_scores strat data ;;
  r <- to_res r_ids sc ;;
  alg <- dict_get String.eqb algorithm_instance_map algorithm_name ;;
  from_integrated_scores alg r.

(** [run_from_omics(omics_data, algorithm, integration_strategy,
    raise_errors=...)] as a whole: the stages before the [try], then lines
    219-229. *)
Definition call (r_ids : list string) (data : omics_data)
  (algorithm_name : string) (strategy : option strategy_arg)
  (raise_errors : option bool) : Wrapper.outcome :=
  let strategy :=
    match strategy with
    | Some s => s
    | None => default_integration_strategy
    end in
  match prepare r_ids data algorithm_name strategy with
  | Ok properties => Wrapper.run_from_omics r_ids (run properties) raise_errors
  | Raise e => {| Wrapper.printed := []; Wrapper.returned := Raise e |}
  end.

End RunFromOmics.

End Omics.

(** ** methods_wrappers.py: [GapfillWrapper.run] *)

Module Gapfill.

(** Lines 119-120: [{v: k for k, v in dict(enumerate(x)).items()}]. *)
Definition index_map (x : list string) : @dict string Z :=
  dict_of String.eqb
    (map (fun kv : Z * string => (snd kv, fst kv))
       (dict_of Z.eqb (enumerate x))).

Inductive gapfill_algorithm : Type :=
| EFMGapfill.

(** Lines 48-50, [gapfill_algorithm_map]. *)
Definition gapfill_algorithm_map : @dict string gapfill_algorithm :=
  [("efm"%string, EFMGapfill)].

(** Line 138: [[[self.model_reader.r_ids[k] for k in s] for s in res]]. *)
Definition names (r_ids : list string) (res : list (list Z))
  : result (list (list string)) :=
  mapM (mapM (getitem r_ids)) res.

Section Run.

(** The collaborators: the values of keyword arguments, the empty dict,
    the decoder functions of an algorithm's property class, and the
    construction and run of the algorithm on the decoded keywords. *)
Variable V : Type.
Variable empty_dict : V.
Variable decoders :
  gapfill_algorithm ->
  @dict string (V -> @dict string Z -> @dict string Z -> result V).
Variable gapfill :
  gapfill_algorithm -> @dict string V -> result (list (list Z)).

(** Lines 116-117 and 125-126: the keywords handed on. *)
Definition prop_kwargs (avbl_fluxes : V) (ls_override : option V)
  (kwargs : @dict string V) : @dict string V :=
  let ls_override :=
    match ls_override with
    | None => empty_dict
    | Some v => v
    end in
  dict_update String.eqb
    [("avbl_fluxes"%string, avbl_fluxes); ("lsystem_args"%string, ls_override)]
    kwargs.

(** Lines 130-131, one item of the comprehension. *)
Definition decode
  (dec : @dict string (V -> @dict string Z -> @dict string Z -> result V))
  (rx_map mt_map : @dict string Z) (kv : string * V) : result (string * V) :=
  match dict_get String.eqb dec (fst kv) with
  | Ok d => v <- d (snd kv) rx_map mt_map ;; Ok (fst kv, v)
  | Raise _ => Ok kv
  end.

(** [GapfillWrapper.run(avbl_fluxes, algorithm, ls_override, **kwargs)]. *)
Definition run (r_ids m_ids : list string) (avbl_fluxes : V)
  (algorithm_name : string) (ls_override : option V)
  (kwargs : @dict string V) : result (list (list string)) :=
  let rx_map := index_map r_ids in
  let mt_map := index_map m_ids in
  algo <- dict_get String.eqb gapfill_algorithm_map algorithm_name ;;
  decoded <- mapM (decode (decoders algo) rx_map mt_map)
               (prop_kwargs avbl_fluxes ls_override kwargs) ;;
  res <- gapfill algo (dict_of String.eqb decoded) ;;
  names r_ids res.

End Run.

End Gapfill.

(** * Properties of the embedding *)

(** ** Indexing and comparison lemmas *)

Section IndexLemmas.

Context {A : Type}.

Lemma Qltb_iff (x y : Q) : Qltb x y = true <-> x < y.
Proof. unfold Qltb, Qlt. apply Z.ltb_lt. Qed.

Lemma Qltb_irrefl_eq (x y : Q) : x == y -> Qltb x y = false.
Proof.
  intros E. destruct (Qltb x y) eqn:H; [|reflexivity].
  apply Qltb_iff in H. rewrite E in H. exfalso. exact (Qlt_irrefl _ H).
Qed.

Lemma norm_index_nat (n i : nat) :
  (i < n)%nat -> norm_index n (Z.of_nat i) = Some i.
Proof.
  intros H. unfold norm_index.
  replace (0 <=? Z.of_nat i)%Z with true by (symmetry; apply Z.leb_le; lia).
  replace (Z.of_nat i <? Z.of_nat n)%Z with true
    by (symmetry; apply Z.ltb_lt; lia).
  simpl. now rewrite Nat2Z.id.
Qed.

Lemma norm_index_bound (n : nat) (j : Z) (k : nat) :
  norm_index n j = Some k -> (k < n)%nat.
Proof.
  unfold norm_index.
  destruct ((0 <=? j)%Z && (j <? Z.of_nat n)%Z) eqn:E1.
  - apply andb_prop in E1 as [H1 H2].
    apply Z.leb_le in H1. apply Z.ltb_lt in H2.
    intros [= <-]. lia.
  - destruct ((- Z.of_nat n <=? j)%Z && (j <? 0)%Z) eqn:E2; [|discriminate].
    apply andb_prop in E2 as [H1 H2].
    apply Z.leb_le in H1. apply Z.ltb_lt in H2.
    intros [= <-]. lia.
Qed.

Lemma getitem_nat (l : list A) (i : nat) (x : A) :
  nth_error l i = Some x -> getitem l (Z.of_nat i) = Ok x.
Proof.
  intros H. unfold getitem.
  rewrite norm_index_nat by (apply nth_error_Some; congruence).
  now rewrite H.
Qed.

Lemma list_set_length (l : list A) (k : nat) (v : A) :
  length (list_set l k v) = length l.
Proof.
  revert k; induction l as [|x l IH]; intros [|k]; simpl; auto.
Qed.

Lemma list_set_same (l : list A) (k : nat) (v : A) :
  (k < length l)%nat -> nth_error (list_set l k v) k = Some v.
Proof.
  revert k; induction l as [|x l IH]; intros [|k] H; simpl in *;
    try lia; auto.
  apply IH. lia.
Qed.

Lemma list_set_other (l : list A) (k i : nat) (v : A) :
  i <> k -> nth_error (list_set l k v) i = nth_error l i.
Proof.
  revert k i; induction l as [|x l IH]; intros [|k] [|i] H; simpl;
    auto; try congruence.
Qed.

Lemma setitem_nat (l : list A) (i : nat) (v : A) :
  (i < length l)%nat -> setitem l (Z.of_nat i) v = Ok (list_set l i v).
Proof. intros H. unfold setitem. now rewrite norm_index_nat. Qed.

Lemma setitem_length (l l' : list A) (j : Z) (v : A) :
  setitem l j v = Ok l' -> length l' = length l.
Proof.
  unfold setitem. destruct (norm_index (length l) j); [|discriminate].
  intros [= <-]. apply list_set_length.
Qed.

Lemma norm_index_nonneg (n : nat) (s : Z) (k : nat) :
  (0 <= s)%Z -> norm_index n s = Some k -> k = Z.to_nat s.
Proof.
  intros H. unfold norm_index.
  destruct ((0 <=? s)%Z && (s <? Z.of_nat n)%Z); [now intros [= <-]|].
  destruct ((- Z.of_nat n <=? s)%Z && (s <? 0)%Z) eqn:E; [|discriminate].
  apply andb_prop in E as [_ E]. apply Z.ltb_lt in E. lia.
Qed.

Lemma setitem_get_same (l l' : list A) (s : Z) (v : A) :
  setitem l s v = Ok l' -> getitem l' s = Ok v.
Proof.
  unfold setitem, getitem.
  destruct (norm_index (length l) s) as [k|] eqn:E; [|discriminate].
  intros [= <-]. rewrite list_set_length, E.
  now rewrite list_set_same by (eapply norm_index_bound; eauto).
Qed.

Lemma setitem_get_other (l l' : list A) (s s' : Z) (v : A) :
  setitem l s v = Ok l' -> (0 <= s)%Z -> (0 <= s')%Z -> s <> s' ->
  getitem l' s' = getitem l s'.
Proof.
  unfold setitem, getitem.
  destruct (norm_index (length l) s) as [k|] eqn:E; [|discriminate].
  intros [= <-] Hs Hs' D. rewrite list_set_length.
  destruct (norm_index (length l) s') as [k'|] eqn:E'; [|reflexivity].
  apply norm_index_nonneg in E; [|exact Hs].
  apply norm_index_nonneg in E'; [|exact Hs'].
  rewrite list_set_other; [reflexivity|]. subst. intros C.
  apply D. apply Z2Nat.inj; auto.
Qed.

End IndexLemmas.

Lemma norm_index_of_nat (n x : nat) :
  norm_index n (Z.of_nat x) <> None -> (x < n)%nat.
Proof.
  destruct (norm_index n (Z.of_nat x)) as [k|] eqn:E; [|congruence].
  intros _. pose proof (norm_index_bound _ _ _ E) as B.
  apply norm_index_nonneg in E; [|lia]. rewrite Nat2Z.id in E. lia.
Qed.

Lemma getitem_zeros (n : nat) (s : Z) :
  norm_index n s <> None -> getitem (zeros n) s = Ok 0.
Proof.
  unfold getitem, zeros. rewrite repeat_length.
  destruct (norm_index n s) as [k|] eqn:E; [|congruence].
  intros _. apply norm_index_bound in E.
  now rewrite nth_error_repeat.
Qed.

Lemma foldM_invariant {A St : Type} (P : St -> Prop)
  (f : St -> A -> result St) (l : list A) (s s' : St) :
  (forall s1 a s2, P s1 -> f s1 a = Ok s2 -> P s2) ->
  P s -> foldM f l s = Ok s' -> P s'.
Proof.
  intros Step. revert s; induction l as [|a l IH]; intros s Hs; simpl.
  - now intros [= <-].
  - destruct (f s a) as [s1|] eqn:E; simpl; [|discriminate].
    apply IH. eapply Step; eauto.
Qed.

Lemma mapM_seq {B : Type} (f : Z -> result B) (g : nat -> B) (len s : nat) :
  (forall i, (s <= i < s + len)%nat -> f (Z.of_nat i) = Ok (g i)) ->
  mapM f (map Z.of_nat (seq s len)) = Ok (map g (seq s len)).
Proof.
  revert s; induction len as [|len IH]; intros s H; simpl; [reflexivity|].
  rewrite H by lia. simpl. rewrite IH; [reflexivity|].
  intros i Hi. apply H. lia.
Qed.

Lemma mapM_range {B : Type} (f : Z -> result B) (g : nat -> B) (n : nat) :
  (forall i, (i < n)%nat -> f (Z.of_nat i) = Ok (g i)) ->
  mapM f (range n) = Ok (map g (seq 0 n)).
Proof.
  intros H. unfold range. apply mapM_seq. intros i Hi. apply H. lia.
Qed.

Lemma nth_error_map_seq {B : Type} (g : nat -> B) (n i : nat) :
  (i < n)%nat -> nth_error (map g (seq 0 n)) i = Some (g i).
Proof.
  intros H.
  rewrite (nth_error_nth' _ (g 0%nat)) by (now rewrite length_map, length_seq).
  f_equal. rewrite (map_nth g (seq 0 n) 0%nat i), seq_nth; auto.
Qed.

(** ** Dictionaries *)

Section DictLemmas.

Context {K V : Type}.
Variable eqb : K -> K -> bool.
Hypothesis eqb_eq : forall x y, eqb x y = true <-> x = y.

Lemma dict_get_set (d : @dict K V) (k k' : K) (v : V) :
  dict_get eqb (dict_set eqb d k v) k'
  = if eqb k' k then Ok v else dict_get eqb d k'.
Proof.
  induction d as [|[k0 v0] d IH]; simpl; [reflexivity|].
  destruct (eqb k k0) eqn:E; simpl.
  - apply eqb_eq in E. subst k0. destruct (eqb k' k); reflexivity.
  - rewrite IH. destruct (eqb k' k0) eqn:E0; [|reflexivity].
    apply eqb_eq in E0. subst k0.
    destruct (eqb k' k) eqn:E1; [|reflexivity].
    apply eqb_eq in E1. subst k'.
    assert (T : eqb k k = true) by now apply eqb_eq. congruence.
Qed.

(** Updating with items that all carry the value [v]: the keys among the
    items read [v], the others are untouched. *)
Lemma dict_get_update_const (items d : @dict K V) (k : K) (v : V) :
  (forall kv, In kv items -> snd kv = v) ->
  dict_get eqb (dict_update eqb d items) k
  = if existsb (eqb k) (map fst items) then Ok v else dict_get eqb d k.
Proof.
  revert d; induction items as [|[k0 v0] items IH]; intros d H; simpl;
    [reflexivity|].
  unfold dict_update in *. simpl. rewrite IH by (intros; apply H; now right).
  rewrite dict_get_set.
  destruct (existsb (eqb k) (map fst items)); [now rewrite orb_true_r|].
  rewrite orb_false_r. destruct (eqb k k0); [|reflexivity].
  now rewrite <- (H (k0, v0)) by now left.
Qed.

End DictLemmas.

(** ** The irreversibility transform *)

Section Transform.

Import GIMME.

Lemma mapM_length {A B : Type} (f : A -> result B) (l : list A)
  (l' : list B) :
  mapM f l = Ok l' -> length l' = length l.
Proof.
  revert l'; induction l as [|x l IH]; intros l'; simpl.
  - now intros [= <-].
  - destruct (f x) as [y|]; simpl; [|discriminate].
    destruct (mapM f l) as [ys|]; simpl; [|discriminate].
    intros [= <-]. simpl. now rewrite (IH ys).
Qed.

(** A comprehension with a filter that does not raise keeps the elements
    that pass the test. *)
Lemma filterM_filter {A : Type} (f : A -> result bool) (l l1 : list A) :
  filterM f l = Ok l1 ->
  l1 = filter (fun x => match f x with Ok b => b | Raise _ => false end) l.
Proof.
  revert l1; induction l as [|x l IH]; intros l1; simpl.
  - now intros [= <-].
  - destruct (f x) as [b|]; simpl; [|discriminate].
    destruct (filterM f l) as [ys|]; simpl; [|discriminate].
    intros [= <-]. rewrite (IH ys eq_refl). reflexivity.
Qed.

(** The reactions line 82 keeps and those line 86 enumerates split the
    reactions of the model between them. *)
Lemma reactions_partitioned (n : nat) (lb ub : vector) (irrev : list Z) :
  irrev_of n lb ub = Ok irrev ->
  (length irrev + length (rev_of n irrev))%nat = n.
Proof.
  intros H. apply filterM_filter in H.
  set (g := fun x : Z =>
              match (r <- is_reversible lb ub x ;; Ok (negb r)) with
              | Ok b => b
              | Raise _ => false
              end) in H.
  assert (R : rev_of n irrev = filter (fun x => negb (g x)) (range n)).
  { unfold rev_of. apply filter_ext_in. intros x Hx. f_equal.
    destruct (g x) eqn:G.
    - apply existsb_exists. exists x. split; [|apply Z.eqb_refl].
      rewrite H. apply filter_In. auto.
    - destruct (existsb (Z.eqb x) irrev) eqn:X; [|reflexivity].
      apply existsb_exists in X as [y [Hy Exy]].
      apply Z.eqb_eq in Exy. subst y.
      rewrite H in Hy. apply filter_In in Hy as [_ Hy]. congruence. }
  rewrite R, H, filter_length. unfold range.
  now rewrite length_map, length_seq.
Qed.

(** What lines 82-84 have computed when they end normally. *)
Lemma split_columns_inv (Sm : matrix) (lb ub : vector) (irrev : list Z)
  (Si Sr : matrix) :
  split_columns Sm lb ub = Ok (irrev, Si, Sr) ->
  irrev_of (length Sm) lb ub = Ok irrev /\ irrev <> [] /\
  mapM (getitem Sm) irrev = Ok Si /\
  mapM (getitem Sm) (map Z.opp irrev) = Ok Sr.
Proof.
  unfold split_columns.
  destruct (irrev_of (length Sm) lb ub) as [irrev0|] eqn:EI; cbn [bind];
    [|discriminate].
  destruct (index_array irrev0) as [idx|] eqn:EX; cbn [bind]; [|discriminate].
  assert (idx = irrev0 /\ irrev0 <> []) as [-> NE].
  { destruct irrev0; simpl in EX; [discriminate|].
    inversion EX. split; [reflexivity|discriminate]. }
  unfold take_columns.
  destruct (mapM (getitem Sm) irrev0) as [Si0|] eqn:ESi; cbn [bind];
    [|discriminate].
  destruct (mapM (getitem Sm) (map Z.opp irrev0)) as [Sr0|] eqn:ESr;
    cbn [bind]; [|discriminate].
  intros [= <- <- <-]. auto.
Qed.

(** C6, what the code does instead.  Line 83 indexes the columns with the
    negated indices of the irreversible reactions, so the block [Sr] meant
    for the reversible columns has as many columns as the irreversible
    block [Si], whatever the number of reversible reactions: [Si], [Sr]
    and [-Sr] together count three times the irreversible reactions, which
    is [|irrev| + 2 |rev|] only for a model with as many reversible as
    irreversible reactions.  No map is built at all: the transform then
    stops at line 86 with [NameError]. *)
Theorem reversible_block_sized_by_irrev (Sm : matrix) (lb ub : vector)
  (irrev : list Z) (Si Sr : matrix) :
  split_columns Sm lb ub = Ok (irrev, Si, Sr) ->
  irrev_of (length Sm) lb ub = Ok irrev /\
  (length irrev + length (rev_of (length Sm) irrev))%nat = length Sm /\
  length Si = length irrev /\ length Sr = length irrev /\
  ((length Si + 2 * length Sr)%nat
     = (length irrev + 2 * length (rev_of (length Sm) irrev))%nat
   <-> length irrev = length (rev_of (length Sm) irrev)) /\
  make_irreversible Sm lb ub = Raise NameError.
Proof.
  intros H. unfold make_irreversible. rewrite H. cbn [bind].
  apply split_columns_inv in H as [EI [_ [ESi ESr]]].
  pose proof (reactions_partitioned _ _ _ _ EI) as P.
  apply mapM_length in ESi. apply mapM_length in ESr.
  rewrite length_map in ESr. unfold vector in *.
  repeat split; auto; lia.
Qed.

(** The instance behind [reversible_block_sized_by_irrev]: a single
    irreversible reaction with bounds [0, 1] and no reversible one.  [Sr]
    holds one column, the column of that reaction itself ([-0] is [0]),
    where the specification has none. *)
Lemma reversible_block_sized_by_irrev_witness :
  split_columns [[1]] [0] [1] = Ok ([0%Z], [[1]], [[1]]) /\
  irrev_of 1 [0] [1] = Ok [0%Z] /\
  (length [0%Z] + length (rev_of 1 [0%Z]))%nat = 1%nat /\
  length [[1]] = length [0%Z] /\ length [[1]] = length [0%Z] /\
  ((length [[1]] + 2 * length [[1]])%nat
     = (length [0%Z] + 2 * length (rev_of 1 [0%Z]))%nat
   <-> length [0%Z] = length (rev_of 1 [0%Z])) /\
  make_irreversible [[1]] [0] [1] = Raise NameError.
Proof.
  split; [reflexivity|].
  apply (reversible_block_sized_by_irrev [[1]] [0] [1] [0%Z] [[1]] [[1]]).
  reflexivity.
Defined.

End Transform.

(** ** The bounds loop of the transform *)

Section BoundsLoop.

Import GIMME.

Variables lb ub : vector.

Lemma assign_bounds_inv (st st' : vector * vector) (a : Z * rxmap) :
  assign_bounds lb ub st a = Ok st' ->
  exists l u,
    getitem lb (fst a) = Ok l /\ getitem ub (fst a) = Ok u /\
    match snd a with
    | Pair f b =>
        exists nub1, setitem (snd st) f l = Ok nub1 /\
                     setitem nub1 b u = Ok (snd st') /\ fst st' = fst st
    | Single j =>
        setitem (fst st) j l = Ok (fst st') /\
        setitem (snd st) j u = Ok (snd st')
    end.
Proof.
  destruct st as [nlb nub], a as [i new]. unfold assign_bounds.
  cbn [fst snd]. destruct new as [j|f b].
  - destruct (getitem lb i) as [l|]; cbn [bind]; [|discriminate].
    destruct (getitem ub i) as [u|]; cbn [bind]; [|discriminate].
    destruct (setitem nlb j l) as [nlb'|] eqn:E1; cbn [bind];
      [|discriminate].
    destruct (setitem nub j u) as [nub'|] eqn:E2; cbn [bind];
      [|discriminate].
    intros [= <-]. exists l, u. cbn [fst snd]. auto.
  - destruct (getitem lb i) as [l|]; cbn [bind]; [|discriminate].
    destruct (setitem nub f l) as [nub1|] eqn:E1; cbn [bind];
      [|discriminate].
    destruct (getitem ub i) as [u|]; cbn [bind]; [|discriminate].
    destruct (setitem nub1 b u) as [nub2|] eqn:E2; cbn [bind];
      [|discriminate].
    intros [= <-]. exists l, u. cbn [fst snd].
    split; [reflexivity|]. split; [reflexivity|].
    exists nub1. auto.
Qed.

Lemma step_writes (st st' : vector * vector) (a : Z * rxmap) :
  proper a -> assign_bounds lb ub st a = Ok st' -> bounds_written lb ub a st'.
Proof.
  intros [Nn Wf] H. apply assign_bounds_inv in H as [l [u [Hl [Hu H]]]].
  exists l, u. split; [exact Hl|]. split; [exact Hu|].
  destruct (snd a) as [j|f b].
  - destruct H as [H1 H2]. split; eapply setitem_get_same; eauto.
  - destruct H as [nub1 [H1 [H2 _]]]. split.
    + rewrite (setitem_get_other _ _ _ _ _ H2).
      * eapply setitem_get_same; eauto.
      * apply Nn; simpl; auto.
      * apply Nn; simpl; auto.
      * congruence.
    + eapply setitem_get_same; eauto.
Qed.

Ltac slot_side Na Nb Ap :=
  match goal with
  | |- (0 <= _)%Z =>
      first [now (apply Na; simpl; auto) | now (apply Nb; simpl; auto)]
  | |- _ <> _ =>
      let C := fresh in
      intros C; symmetry in C; revert C; apply Ap; simpl; now auto
  end.

Lemma step_frame (st st' : vector * vector) (a b : Z * rxmap) :
  proper a -> proper b -> apart a b ->
  bounds_written lb ub a st -> assign_bounds lb ub st b = Ok st' ->
  bounds_written lb ub a st'.
Proof.
  intros [Na _] [Nb _] Ap [l [u [Hl [Hu W]]]] H.
  apply assign_bounds_inv in H as [l' [u' [_ [_ H]]]].
  exists l, u. split; [exact Hl|]. split; [exact Hu|].
  unfold apart in Ap.
  destruct (snd a) as [j|f b0]; destruct (snd b) as [j'|f' b'];
    destruct W as [W1 W2].
  - destruct H as [H1 H2].
    rewrite (setitem_get_other _ _ _ _ _ H1) by slot_side Na Nb Ap.
    rewrite (setitem_get_other _ _ _ _ _ H2) by slot_side Na Nb Ap.
    auto.
  - destruct H as [nub1 [H1 [H2 H3]]]. rewrite H3.
    rewrite (setitem_get_other _ _ _ _ _ H2) by slot_side Na Nb Ap.
    rewrite (setitem_get_other _ _ _ _ _ H1) by slot_side Na Nb Ap.
    auto.
  - destruct H as [H1 H2].
    rewrite !(setitem_get_other _ _ _ _ _ H2) by slot_side Na Nb Ap.
    auto.
  - destruct H as [nub1 [H1 [H2 H3]]].
    rewrite !(setitem_get_other _ _ _ _ _ H2) by slot_side Na Nb Ap.
    rewrite !(setitem_get_other _ _ _ _ _ H1) by slot_side Na Nb Ap.
    auto.
Qed.

Lemma loop_preserves (rest : list (Z * rxmap)) (st st' : vector * vector)
  (a : Z * rxmap) :
  proper a ->
  (forall b, In b rest -> proper b /\ (b = a \/ apart a b)) ->
  bounds_written lb ub a st ->
  foldM (assign_bounds lb ub) rest st = Ok st' ->
  bounds_written lb ub a st'.
Proof.
  intros Pa. revert st; induction rest as [|b rest IH]; intros st Hr W;
    simpl.
  - now intros [= <-].
  - destruct (assign_bounds lb ub st b) as [st1|] eqn:E; cbn [bind];
      [|discriminate].
    apply IH; [intros c Hc; apply Hr; now right|].
    destruct (Hr b) as [Pb [->|Ap]]; [now left| |].
    + eapply step_writes; eauto.
    + eapply step_frame; eauto.
Qed.

Lemma loop_writes (items : list (Z * rxmap)) (st st' : vector * vector) :
  (forall a, In a items -> proper a) ->
  (forall a b, In a items -> In b items -> a = b \/ apart a b) ->
  foldM (assign_bounds lb ub) items st = Ok st' ->
  forall a, In a items -> bounds_written lb ub a st'.
Proof.
  revert st; induction items as [|x items IH]; intros st Pr Ds H a Ha;
    [contradiction|].
  simpl in H.
  destruct (assign_bounds lb ub st x) as [st1|] eqn:E; cbn [bind] in H;
    [|discriminate].
  destruct Ha as [<-|Ha].
  - apply (loop_preserves items st1 st' x); auto.
    + now apply Pr; left.
    + intros b Hb. split; [apply Pr; now right|].
      destruct (Ds x b) as [->|Ap]; auto; [now left|now right].
    + eapply step_writes; eauto. now apply Pr; left.
  - apply (IH st1); auto.
    + intros b Hb. apply Pr. now right.
    + intros b c Hb Hc. apply Ds; now right.
Qed.

(** Lower bounds are written by scalar entries only. *)
Lemma loop_lower_frame (items : list (Z * rxmap)) (st st' : vector * vector)
  (s : Z) :
  (0 <= s)%Z ->
  (forall i j, In (i, Single j) items -> (0 <= j)%Z /\ j <> s) ->
  foldM (assign_bounds lb ub) items st = Ok st' ->
  getitem (fst st') s = getitem (fst st) s.
Proof.
  intros Hs. revert st; induction items as [|x items IH]; intros st Hn;
    simpl.
  - now intros [= <-].
  - destruct (assign_bounds lb ub st x) as [st1|] eqn:E; cbn [bind];
      [|discriminate].
    intros H. rewrite (IH st1); auto.
    + apply assign_bounds_inv in E as [l [u [_ [_ E]]]].
      destruct x as [i [j|f b]]; cbn [snd] in E.
      * destruct E as [E1 _]. destruct (Hn i j) as [Hj D]; [now left|].
        now rewrite (setitem_get_other _ _ _ _ _ E1).
      * destruct E as [_ [_ [_ E]]]. now rewrite E.
    + intros i j Hi. apply (Hn i j). now right.
Qed.

(** A run of the loop that ends normally has found every new index within
    the arrays. *)
Lemma loop_in_range (items : list (Z * rxmap)) (st st' : vector * vector) :
  foldM (assign_bounds lb ub) items st = Ok st' ->
  length (snd st') = length (snd st) /\
  forall a s, In a items -> In s (slots (snd a)) ->
              norm_index (length (snd st)) s <> None.
Proof.
  revert st; induction items as [|x items IH]; intros st; simpl.
  - intros [= <-]. split; [reflexivity|contradiction].
  - destruct (assign_bounds lb ub st x) as [st1|] eqn:E; cbn [bind];
      [|discriminate].
    intros H. apply IH in H as [L R].
    apply assign_bounds_inv in E as [l [u [_ [_ E]]]].
    assert (L1 : length (snd st1) = length (snd st) /\
                 forall s, In s (slots (snd x)) ->
                           norm_index (length (snd st)) s <> None).
    { destruct (snd x) as [j|f b].
      - destruct E as [_ E]. split; [eapply setitem_length; eauto|].
        intros s [<-|[]]. unfold setitem in E.
        destruct (norm_index (length (snd st)) j); [discriminate|].
        discriminate.
      - destruct E as [nub1 [E1 [E2 _]]].
        pose proof (setitem_length _ _ _ _ E1) as L1.
        pose proof (setitem_length _ _ _ _ E2) as L2.
        split; [congruence|].
        intros s [<-|[<-|[]]].
        + unfold setitem in E1.
          destruct (norm_index (length (snd st)) f); discriminate.
        + unfold setitem in E2. rewrite L1 in E2.
          destruct (norm_index (length (snd st)) b); discriminate. }
    destruct L1 as [L1 R1]. split; [congruence|].
    intros a s [<-|Ha] Hs; [now apply R1|].
    rewrite <- L1. eapply R; eauto.
Qed.

End BoundsLoop.

Section MapStructure.

Import GIMME.

Lemma enumerate_from_nth {A : Type} (l : list A) (s n : nat) :
  nth_error (combine (map Z.of_nat (seq s (length l))) l) n
  = match nth_error l n with
    | Some a => Some (Z.of_nat (s + n), a)
    | None => None
    end.
Proof.
  revert s n; induction l as [|x l IH]; intros s [|n]; simpl; auto.
  - now rewrite Nat.add_0_r.
  - rewrite IH. now rewrite Nat.add_succ_r.
Qed.

Lemma enumerate_nth {A : Type} (l : list A) (n : nat) :
  nth_error (enumerate l) n
  = match nth_error l n with
    | Some a => Some (Z.of_nat n, a)
    | None => None
    end.
Proof. unfold enumerate, range. now rewrite enumerate_from_nth. Qed.

Lemma in_map_enumerate {A B : Type} (g : Z * A -> B) (l : list A) (x : B) :
  In x (map g (enumerate l)) ->
  exists n a, nth_error l n = Some a /\ x = g (Z.of_nat n, a).
Proof.
  intros H. apply in_map_iff in H as [[z a] [<- H]].
  apply In_nth_error in H as [n H]. rewrite enumerate_nth in H.
  destruct (nth_error l n) as [a'|] eqn:E; [|discriminate].
  inversion H; subst. now exists n, a.
Qed.

Lemma filterM_total {A : Type} (f : A -> result bool) (l l1 : list A) :
  filterM f l = Ok l1 -> forall x, In x l -> exists b, f x = Ok b.
Proof.
  revert l1; induction l as [|y l IH]; intros l1; simpl; [contradiction|].
  destruct (f y) as [b|] eqn:E; cbn [bind]; [|discriminate].
  destruct (filterM f l) as [ys|]; cbn [bind]; [|discriminate].
  intros _ x [<-|Hx]; [now exists b|]. eapply IH; eauto.
Qed.

(** The reactions of [rev_of] are those with [lb < 0 < ub]. *)
Lemma rev_of_reversible (n : nat) (lb ub : vector) (irrev : list Z) (i : Z) :
  irrev_of n lb ub = Ok irrev -> In i (rev_of n irrev) ->
  exists l u, getitem lb i = Ok l /\ getitem ub i = Ok u /\ l < 0 /\ 0 < u.
Proof.
  intros H Hi. unfold rev_of in Hi. apply filter_In in Hi as [Hr Hn].
  destruct (filterM_total _ _ _ H i Hr) as [b Hb].
  apply filterM_filter in H.
  assert (b = false) as ->.
  { destruct b; [|reflexivity].
    apply negb_true_iff in Hn.
    assert (X : existsb (Z.eqb i) irrev = true); [|congruence].
    apply existsb_exists. exists i. split; [|apply Z.eqb_refl].
    rewrite H. apply filter_In. split; [exact Hr|]. now rewrite Hb. }
  unfold is_reversible in Hb.
  destruct (getitem lb i) as [l|]; cbn [bind] in Hb; [|discriminate].
  destruct (Qltb l 0) eqn:L; cbn [bind] in Hb.
  - destruct (getitem ub i) as [u|]; cbn [bind] in Hb; [|discriminate].
    destruct (Qltb 0 u) eqn:U; [|discriminate].
    exists l, u. repeat split; auto; now apply Qltb_iff.
  - discriminate.
Qed.

End MapStructure.

Section Bounds.

Import GIMME.

(** One turn of the loop of lines 91-96 on a split reaction: it writes no
    lower bound and writes, as upper bounds, the original lower bound
    [lb[i]] (not negated) into the first slot and the original upper bound
    [ub[i]] into the second. *)
Lemma split_bounds_as_written (lb ub nlb nub : vector) (orig f b : Z)
  (l u : Q) (kf kb : nat) :
  getitem lb orig = Ok l ->
  getitem ub orig = Ok u ->
  norm_index (length nub) f = Some kf ->
  norm_index (length nub) b = Some kb ->
  kf <> kb ->
  exists nub',
    assign_bounds lb ub (nlb, nub) (orig, Pair f b) = Ok (nlb, nub') /\
    length nub' = length nub /\
    nth_error nub' kf = Some l /\
    nth_error nub' kb = Some u /\
    forall k, k <> kf -> k <> kb -> nth_error nub' k = nth_error nub k.
Proof.
  intros Hl Hu Hf Hb D. unfold assign_bounds.
  rewrite Hl. cbn [bind]. unfold setitem at 1. rewrite Hf. cbn [bind].
  rewrite Hu. cbn [bind]. unfold setitem. rewrite list_set_length, Hb.
  cbn [bind].
  pose proof (norm_index_bound _ _ _ Hf) as Bf.
  pose proof (norm_index_bound _ _ _ Hb) as Bb.
  eexists. split; [reflexivity|].
  split; [now rewrite !list_set_length|].
  split; [rewrite list_set_other by exact D; now apply list_set_same|].
  split; [apply list_set_same; now rewrite list_set_length|].
  intros k Kf Kb. now rewrite !list_set_other.
Qed.

(** That turn for the reversible reaction of a two-reaction model, with
    bounds [-5, 5] and slots 1 and 2: the first slot gets the upper bound
    [-5]. *)
Example split_bounds_two_reactions :
  (getitem [0; -5 # 1] 1 = Ok (-5 # 1) /\
   getitem [10 # 1; 5 # 1] 1 = Ok (5 # 1) /\
   norm_index (length (zeros 3)) 1 = Some 1%nat /\
   norm_index (length (zeros 3)) 2 = Some 2%nat /\
   1%nat <> 2%nat) /\
  exists nub',
    assign_bounds [0; -5 # 1] [10 # 1; 5 # 1] (zeros 3, zeros 3)
      (1%Z, Pair 1 2) = Ok (zeros 3, nub') /\
    length nub' = length (zeros 3) /\
    nth_error nub' 1 = Some (-5 # 1) /\
    nth_error nub' 2 = Some (5 # 1) /\
    forall k, k <> 1%nat -> k <> 2%nat ->
              nth_error nub' k = nth_error (zeros 3) k.
Proof.
  split; [repeat split; discriminate|].
  apply (split_bounds_as_written [0; -5 # 1] [10 # 1; 5 # 1] (zeros 3)
           (zeros 3) 1 1 2 (-5 # 1) (5 # 1) 1 2);
    try reflexivity; discriminate.
Qed.

(** A reaction kept as it is has both of its bounds copied to its slot. *)
Lemma single_bounds_kept (lb ub nlb nub : vector) (orig j : Z) (l u : Q)
  (k : nat) :
  getitem lb orig = Ok l ->
  getitem ub orig = Ok u ->
  norm_index (length nlb) j = Some k ->
  norm_index (length nub) j = Some k ->
  exists nlb' nub',
    assign_bounds lb ub (nlb, nub) (orig, Single j) = Ok (nlb', nub') /\
    nth_error nlb' k = Some l /\ nth_error nub' k = Some u.
Proof.
  intros Hl Hu Hn Hm. unfold assign_bounds.
  rewrite Hl. cbn [bind]. rewrite Hu. cbn [bind].
  unfold setitem. rewrite Hn, Hm. cbn [bind].
  pose proof (norm_index_bound _ _ _ Hn).
  pose proof (norm_index_bound _ _ _ Hm).
  do 2 eexists. split; [reflexivity|].
  split; now apply list_set_same.
Qed.

(** C1, what the code does instead.  Over a map whose entries claim
    non-negative new indices and share none, when the loop of lines 91-96
    ends, a reaction with a scalar entry has its bounds [(lb[i], ub[i])] at
    its new index, and a reaction with a tuple has, as upper bounds,
    [lb[i]] itself (not [-lb[i]]) on the first slot and [ub[i]] on the
    second, while the lower bounds of both slots are as they were before
    the loop: lines 93-94 write [nub] twice and [nlb] never. *)
Theorem bounds_loop_as_written (lb ub : vector) (rx_mapping : mapping)
  (nlb nub nlb' nub' : vector) :
  (forall a, In a rx_mapping -> proper a) ->
  (forall a b, In a rx_mapping -> In b rx_mapping -> a = b \/ apart a b) ->
  assign_all_bounds lb ub rx_mapping nlb nub = Ok (nlb', nub') ->
  forall i new, In (i, new) rx_mapping ->
  exists l u,
    getitem lb i = Ok l /\ getitem ub i = Ok u /\
    match new with
    | Pair f b =>
        getitem nub' f = Ok l /\ getitem nub' b = Ok u /\
        getitem nlb' f = getitem nlb f /\ getitem nlb' b = getitem nlb b
    | Single j => getitem nlb' j = Ok l /\ getitem nub' j = Ok u
    end.
Proof.
  unfold assign_all_bounds. intros Proper Apart EF i new Hin.
  destruct (loop_writes lb ub _ _ _ Proper Apart EF _ Hin)
    as [l [u [Hl [Hu W]]]].
  cbn [fst snd] in Hl, Hu, W.
  exists l, u. split; [exact Hl|]. split; [exact Hu|].
  destruct new as [j|f b]; [exact W|].
  destruct W as [W1 W2]. split; [exact W1|]. split; [exact W2|].
  assert (Low : forall s, In s [f; b] -> getitem nlb' s = getitem nlb s).
  { intros s Hs.
    destruct (Proper _ Hin) as [Nn _]. cbn [snd slots] in Nn.
    apply (loop_lower_frame lb ub rx_mapping (nlb, nub) (nlb', nub') s);
      [now apply Nn| |exact EF].
    intros i0 j0 H0. destruct (Proper _ H0) as [Nj _].
    split; [apply Nj; simpl; auto|].
    destruct (Apart _ _ H0 Hin) as [C|Ap]; [discriminate|].
    apply Ap; simpl; auto. }
  split; apply Low; simpl; auto.
Qed.

(** The instance behind [bounds_loop_as_written]: an irreversible reaction
    with bounds [0, 10] kept at index 0 and a reversible one with bounds
    [-5, 5] split over the slots 1 and 2, on zero arrays.  The split
    reaction gets the bounds [(0, -5)] and [(0, 5)]; the specification
    asks for [(0, 5)] on both slots. *)
Lemma bounds_loop_as_written_witness :
  let m := [(1%Z, Pair 1 2); (0%Z, Single 0)] in
  (forall a, In a m -> proper a) /\
  (forall a b, In a m -> In b m -> a = b \/ apart a b) /\
  assign_all_bounds [0; -5 # 1] [10 # 1; 5 # 1] m [0; 0; 0] [0; 0; 0]
    = Ok ([0; 0; 0], [10 # 1; -5 # 1; 5 # 1]) /\
  forall i new, In (i, new) m ->
  exists l u,
    getitem [0; -5 # 1] i = Ok l /\ getitem [10 # 1; 5 # 1] i = Ok u /\
    match new with
    | Pair f b =>
        getitem [10 # 1; -5 # 1; 5 # 1] f = Ok l /\
        getitem [10 # 1; -5 # 1; 5 # 1] b = Ok u /\
        getitem [0; 0; 0] f = getitem [0; 0; 0] f /\
        getitem [0; 0; 0] b = getitem [0; 0; 0] b
    | Single j =>
        getitem [0; 0; 0] j = Ok l /\
        getitem [10 # 1; -5 # 1; 5 # 1] j = Ok u
    end.
Proof.
  intros m.
  assert (P : forall a, In a m -> proper a).
  { intros a [<-|[<-|[]]]; split; cbn [snd slots]; try exact I;
      try discriminate; intros s Hs; simpl in Hs;
      repeat destruct Hs as [<-|Hs]; try contradiction; lia. }
  assert (A : forall a b, In a m -> In b m -> a = b \/ apart a b).
  { intros a b [<-|[<-|[]]] [<-|[<-|[]]]; try (now left); right;
      intros s s' Hs Hs'; simpl in Hs, Hs';
      repeat destruct Hs as [<-|Hs]; try contradiction;
      repeat destruct Hs' as [<-|Hs']; try contradiction; discriminate. }
  split; [exact P|]. split; [exact A|]. split; [reflexivity|].
  apply (bounds_loop_as_written [0; -5 # 1] [10 # 1; 5 # 1] m
           [0; 0; 0] [0; 0; 0] [0; 0; 0] [10 # 1; -5 # 1; 5 # 1] P A).
  reflexivity.
Defined.

(** The whole transform on that model stops at line 86, and on the single
    reversible reaction of Scenario B at line 83. *)
Example make_irreversible_two_reactions :
  make_irreversible [[1]; [1]] [0; -5 # 1] [10 # 1; 5 # 1] = Raise NameError.
Proof. reflexivity. Qed.

Example make_irreversible_scenario_B :
  make_irreversible [[1]] [-5 # 1] [5 # 1] = Raise IndexError.
Proof. reflexivity. Qed.

End Bounds.

(** ** Evidence mapping *)

Section Evidence.

Import GIMME.

(** An entry whose reaction has a tuple in the map is written to both of
    its slots. *)
Lemma pair_entry_assigned (m : mapping) (exp_vector : vector) (rxn f b : Z)
  (val : Q) (kf kb : nat) :
  dict_get Z.eqb m rxn = Ok (Pair f b) ->
  norm_index (length exp_vector) f = Some kf ->
  norm_index (length exp_vector) b = Some kb ->
  exists v, assign_evidence m exp_vector (rxn, val) = Ok v /\
            nth_error v kf = Some val /\ nth_error v kb = Some val.
Proof.
  intros Hm Hf Hb. unfold assign_evidence. cbn [fst snd].
  rewrite Hm. cbn [bind]. unfold setitem at 1. rewrite Hf. cbn [bind].
  unfold setitem. rewrite list_set_length, Hb.
  pose proof (norm_index_bound _ _ _ Hf) as Bf.
  pose proof (norm_index_bound _ _ _ Hb) as Bb.
  eexists. split; [reflexivity|]. split.
  - destruct (Nat.eq_dec kf kb) as [->|D].
    + apply list_set_same. now rewrite list_set_length.
    + rewrite list_set_other by exact D. now apply list_set_same.
  - apply list_set_same. now rewrite list_set_length.
Qed.

Lemma dict_get_in (m : mapping) (k : Z) (v : rxmap) :
  dict_get Z.eqb m k = Ok v -> In (k, v) m.
Proof.
  induction m as [|[k0 v0] m IH]; simpl; [discriminate|].
  destruct (Z.eqb_spec k k0) as [->|D].
  - intros [= <-]. now left.
  - intros H. right. now apply IH.
Qed.

(** When every supplied reaction has a scalar map entry, the loop of lines
    27-30 assigns nothing at all. *)
Lemma scalar_entries_not_assigned (n : nat) (m : mapping)
  (exp_rxns : @dict Z Q) :
  (forall rxn val, In (rxn, val) exp_rxns ->
                   exists j, dict_get Z.eqb m rxn = Ok (Single j)) ->
  expression_vector n m exp_rxns = Ok (zeros n).
Proof.
  unfold expression_vector. generalize (zeros n) as v.
  induction exp_rxns as [|[rxn val] rest IH]; intros v H; simpl;
    [reflexivity|].
  destruct (H rxn val) as [j Hj]; [now left|].
  unfold assign_evidence at 1. simpl fst. rewrite Hj. simpl.
  apply IH. intros r x Hin. apply (H r x). now right.
Qed.

(** C3, what the code does instead.  The loop of lines 27-30 has no branch
    for a scalar map entry: whatever evidence is supplied, a slot that is
    not one of the two slots of a split reaction receives no value and
    stays 0, so the value given for a reaction with a scalar map entry is
    dropped. *)
Theorem evidence_only_in_tuple_slots (n : nat) (m : mapping)
  (exp_rxns : @dict Z Q) (exp_vector : vector) (s : Z) :
  expression_vector n m exp_rxns = Ok exp_vector ->
  (0 <= s)%Z ->
  norm_index n s <> None ->
  (forall i f b, In (i, Pair f b) m ->
                 (0 <= f)%Z /\ (0 <= b)%Z /\ f <> s /\ b <> s) ->
  getitem exp_vector s = Ok 0.
Proof.
  intros H Hs Hr Hm. unfold expression_vector in H.
  apply (foldM_invariant (fun v : vector => getitem v s = Ok 0)) in H;
    [exact H| |now apply getitem_zeros].
  intros v1 [rxn val] v2 G. unfold assign_evidence. cbn [fst snd].
  destruct (dict_get Z.eqb m rxn) as [[j|f b]|] eqn:E; cbn [bind];
    try discriminate.
  - now intros [= <-].
  - apply dict_get_in in E. destruct (Hm _ _ _ E) as [Hf [Hb [Df Db]]].
    destruct (setitem v1 f val) as [w|] eqn:E1; cbn [bind]; [|discriminate].
    intros E2.
    rewrite (setitem_get_other _ _ _ _ _ E2), (setitem_get_other _ _ _ _ _ E1);
      auto.
Qed.

(** The instance behind [evidence_only_in_tuple_slots]: next to a split
    reaction with evidence 3, one irreversible reaction with evidence 7 at
    slot 0; the specification asks for the value 7 in that slot. *)
Lemma evidence_only_in_tuple_slots_witness :
  expression_vector 3 [(1%Z, Pair 1 2); (0%Z, Single 0)]
    [(0%Z, 7 # 1); (1%Z, 3 # 1)] = Ok [0; 3 # 1; 3 # 1] /\
  (0 <= 0)%Z /\
  norm_index 3 0 <> None /\
  (forall i f b, In (i, Pair f b) [(1%Z, Pair 1 2); (0%Z, Single 0)] ->
                 (0 <= f)%Z /\ (0 <= b)%Z /\ f <> 0%Z /\ b <> 0%Z) /\
  getitem [0; 3 # 1; 3 # 1] 0 = Ok 0.
Proof.
  assert (Hm : forall i f b,
             In (i, Pair f b) [(1%Z, Pair 1 2); (0%Z, Single 0)] ->
             (0 <= f)%Z /\ (0 <= b)%Z /\ f <> 0%Z /\ b <> 0%Z).
  { intros i f b [E|[E|[]]]; inversion E. repeat split; discriminate. }
  split; [reflexivity|]. split; [discriminate|]. split; [discriminate|].
  split; [exact Hm|].
  apply (evidence_only_in_tuple_slots 3 [(1%Z, Pair 1 2); (0%Z, Single 0)]
           [(0%Z, 7 # 1); (1%Z, 3 # 1)] [0; 3 # 1; 3 # 1] 0);
    [reflexivity|discriminate|discriminate|exact Hm].
Defined.

(** C7, what the code does instead.  Over a nonempty map the fold-back of
    line 68 unpacks a key of the dict, an integer, into two names, so the
    composition of expansion and fold-back never returns a vector. *)
Theorem round_trip_never_returns (n : nat) (m : mapping)
  (exp_rxns : @dict Z Q) (r : vector) :
  m <> [] ->
  (v <- expression_vector n m exp_rxns ;; fold_back v m) <> Ok r.
Proof.
  intros Hm. destruct (expression_vector n m exp_rxns) as [v|e]; simpl;
    [|discriminate].
  destruct m as [|[k x] m]; [congruence|]. discriminate.
Qed.

(** The instance behind [round_trip_never_returns]: one irreversible
    reaction with evidence 7.  Expansion leaves its slot at 0, and the
    fold-back raises; the loop body of line 68 alone would read that 0
    back, and raises on the tuple of a split reaction. *)
Lemma round_trip_never_returns_witness :
  [(0%Z, Single 0)] <> [] /\
  (v <- expression_vector 1 [(0%Z, Single 0)] [(0%Z, 7 # 1)] ;;
   fold_back v [(0%Z, Single 0)]) <> Ok [7 # 1].
Proof.
  split; [discriminate|].
  apply (round_trip_never_returns 1 [(0%Z, Single 0)] [(0%Z, 7 # 1)]
           [7 # 1]).
  discriminate.
Defined.

Example round_trip_scalar_reaction :
  expression_vector 1 [(0%Z, Single 0)] [(0%Z, 7 # 1)] = Ok [0] /\
  fold_back [0] [(0%Z, Single 0)] = Raise TypeError /\
  max_at [0] (Single 0) = Ok 0.
Proof. repeat split. Qed.

Example round_trip_split_reaction :
  expression_vector 2 [(0%Z, Pair 0 1)] [(0%Z, 7 # 1)] = Ok [7 # 1; 7 # 1] /\
  fold_back [7 # 1; 7 # 1] [(0%Z, Pair 0 1)] = Raise TypeError /\
  max_at [7 # 1; 7 # 1] (Pair 0 1) = Raise IndexError.
Proof. repeat split. Qed.

End Evidence.

(** ** The penalty objective *)

Section Penalty.

Import GIMME.

(** C4.  For every index [i] of the evidence vector, the phase-2 penalty
    built on line 55 is [flux_threshold - evidence[i]] when
    [-1 < evidence[i] < flux_threshold] and [0] otherwise; an evidence value
    equal to the threshold and the sentinel [-1] both give penalty [0]. *)
Theorem penalty_objective_entries (flux_thres : Q) (exp_vector : vector) :
  exists penalty,
    gimme_model_objective flux_thres exp_vector (length exp_vector)
      = Ok penalty /\
    length penalty = length exp_vector /\
    forall (i : nat) (e : Q), nth_error exp_vector i = Some e ->
      exists p, nth_error penalty i = Some p /\
        (-1 < e /\ e < flux_thres -> p = flux_thres - e) /\
        (~ (-1 < e /\ e < flux_thres) -> p = 0) /\
        (e == flux_thres -> p = 0) /\
        (e == -1 -> p = 0).
Proof.
  set (g := fun i : nat =>
              let e := nth i exp_vector 0 in
              if Qltb (-1) e && Qltb e flux_thres then flux_thres - e else 0).
  exists (map g (seq 0 (length exp_vector))).
  split; [|split].
  - unfold gimme_model_objective. apply mapM_range.
    intros i Hi.
    destruct (nth_error exp_vector i) as [e|] eqn:E;
      [|apply nth_error_None in E; lia].
    rewrite (getitem_nat _ _ _ E). simpl.
    unfold g. now rewrite (nth_error_nth _ _ 0 E).
  - now rewrite length_map, length_seq.
  - intros i e E.
    assert (Hi : (i < length exp_vector)%nat)
      by (apply nth_error_Some; congruence).
    exists (g i). split; [now apply nth_error_map_seq|].
    unfold g. rewrite (nth_error_nth _ _ 0 E). cbv zeta.
    destruct (Qltb (-1) e) eqn:L1; destruct (Qltb e flux_thres) eqn:L2;
      simpl.
    + repeat split; auto.
      * intros H. exfalso. apply H. split; now apply Qltb_iff.
      * intros H. rewrite (Qltb_irrefl_eq _ _ H) in L2. discriminate.
      * intros H. symmetry in H. rewrite (Qltb_irrefl_eq _ _ H) in L1.
        discriminate.
    + repeat split; auto.
      intros [_ H]. apply Qltb_iff in H. congruence.
    + repeat split; auto.
      intros [H _]. apply Qltb_iff in H. congruence.
    + repeat split; auto.
      intros [H _]. apply Qltb_iff in H. congruence.
Qed.

End Penalty.

(** ** Bound tightening *)

Section Tightening.

Import GIMME.

Lemma nonzero_from (v : vector) (s : nat) :
  map fst (filter (fun p : Z * Q => Qnonzero (snd p))
             (combine (map Z.of_nat (seq s (length v))) v))
  = map Z.of_nat
      (filter (fun i => Qnonzero (nth (i - s) v 0)) (seq s (length v))).
Proof.
  revert s; induction v as [|x v IH]; intros s; [reflexivity|].
  assert (T : filter (fun i => Qnonzero (nth (i - s) (x :: v) 0))
                (seq (S s) (length v))
              = filter (fun i => Qnonzero (nth (i - S s) v 0))
                  (seq (S s) (length v))).
  { apply filter_ext_in. intros i Hi. apply in_seq in Hi.
    replace (i - s)%nat with (S (i - S s)) by lia. reflexivity. }
  cbn [length seq map combine filter snd].
  rewrite T, Nat.sub_diag. cbn [nth].
  destruct (Qnonzero x); cbn [map fst]; rewrite IH; reflexivity.
Qed.

Lemma nonzero_nat (v : vector) :
  nonzero v
  = map Z.of_nat (filter (fun i => Qnonzero (nth i v 0)) (seq 0 (length v))).
Proof.
  unfold nonzero, enumerate, range. rewrite nonzero_from.
  f_equal. apply filter_ext. intros i. now rewrite Nat.sub_0_r.
Qed.

Lemma existsb_nonzero (v : vector) (i : nat) (o : Q) :
  nth_error v i = Some o ->
  existsb (Nat.eqb i)
    (filter (fun i => Qnonzero (nth i v 0)) (seq 0 (length v)))
  = Qnonzero o.
Proof.
  intros E.
  assert (Hi : (i < length v)%nat) by (apply nth_error_Some; congruence).
  destruct (Qnonzero o) eqn:N.
  - apply existsb_exists. exists i. split; [|apply Nat.eqb_refl].
    apply filter_In. split; [apply in_seq; lia|].
    now rewrite (nth_error_nth _ _ 0 E).
  - destruct (existsb _ _) eqn:X; [|reflexivity].
    apply existsb_exists in X as [j [Hj Ej]].
    apply Nat.eqb_eq in Ej. subst j.
    apply filter_In in Hj as [_ Hj].
    rewrite (nth_error_nth _ _ 0 E) in Hj. congruence.
Qed.

(** The fancy-index assignment [lb[ids] = v[ids]] for in-range indices:
    every listed position takes the value of [v], every other keeps its
    own. *)
Lemma overwrite_at (v : vector) (ids : list nat) (lb : vector) :
  length v = length lb ->
  (forall i, In i ids -> (i < length v)%nat) ->
  exists lb',
    foldM (fun acc id => x <- getitem v id ;; setitem acc id x)
      (map Z.of_nat ids) lb = Ok lb' /\
    length lb' = length lb /\
    forall i, nth_error lb' i
              = if existsb (Nat.eqb i) ids then nth_error v i
                else nth_error lb i.
Proof.
  revert lb; induction ids as [|k ids IH]; intros lb L R; simpl.
  - exists lb. auto.
  - assert (Hk : (k < length v)%nat) by (apply R; now left).
    destruct (nth_error v k) as [x|] eqn:E;
      [|apply nth_error_None in E; lia].
    rewrite (getitem_nat _ _ _ E). simpl.
    rewrite setitem_nat by lia.
    destruct (IH (list_set lb k x)) as [lb' [F [L' N]]].
    + now rewrite list_set_length.
    + intros i Hi. apply R. now right.
    + exists lb'. split; [exact F|]. split.
      * now rewrite L', list_set_length.
      * intros i. rewrite N.
        destruct (existsb (Nat.eqb i) ids) eqn:X.
        -- now rewrite orb_true_r.
        -- rewrite orb_false_r. destruct (Nat.eqb_spec i k) as [->|D].
           ++ rewrite list_set_same by lia. now rewrite E.
           ++ now rewrite list_set_other.
Qed.

(** C2, as the code has it.  Tightening overwrites: wherever
    [objective_lbs] is nonzero the lower bound becomes [objective_lbs[i]],
    whether that is larger or smaller than the bound it replaces, and every
    other lower bound is kept; so the new bound is at least the old one
    exactly where [objective_lbs[i]] is zero or not below the old bound. *)
Theorem tighten_overwrites (lb objective_lbs : vector) :
  length objective_lbs = length lb ->
  exists lb',
    tighten lb (Arr objective_lbs) = Ok lb' /\
    length lb' = length lb /\
    forall (i : nat) (x o : Q),
      nth_error lb i = Some x -> nth_error objective_lbs i = Some o ->
      nth_error lb' i = Some (if Qnonzero o then o else x) /\
      (x <= (if Qnonzero o then o else x) <-> (o == 0 \/ x <= o)).
Proof.
  intros L. unfold tighten. rewrite nonzero_nat.
  destruct (overwrite_at objective_lbs
              (filter (fun i => Qnonzero (nth i objective_lbs 0))
                 (seq 0 (length objective_lbs))) lb L)
    as [lb' [F [L' N]]].
  { intros i Hi. apply filter_In in Hi as [Hi _]. apply in_seq in Hi. lia. }
  exists lb'. split; [exact F|]. split; [exact L'|].
  intros i x o Ex Eo. split.
  - rewrite N, (existsb_nonzero _ _ _ Eo).
    destruct (Qnonzero o); congruence.
  - unfold Qnonzero. destruct (Qeq_bool o 0) eqn:Z0; simpl.
    + apply Qeq_bool_iff in Z0. split; [now left | intros _; apply Qle_refl].
    + split; [now right|].
      intros [H|H]; [|exact H].
      apply Qeq_bool_iff in H. congruence.
Qed.

(** The instance behind [tighten_overwrites]. *)
Lemma tighten_overwrites_witness :
  length [0; 2 # 1] = length [3 # 1; 1 # 1] /\
  exists lb',
    tighten [3 # 1; 1 # 1] (Arr [0; 2 # 1]) = Ok lb' /\
    length lb' = length [3 # 1; 1 # 1] /\
    forall (i : nat) (x o : Q),
      nth_error [3 # 1; 1 # 1] i = Some x ->
      nth_error [0; 2 # 1] i = Some o ->
      nth_error lb' i = Some (if Qnonzero o then o else x) /\
      (x <= (if Qnonzero o then o else x) <-> (o == 0 \/ x <= o)).
Proof.
  split; [reflexivity|].
  apply (tighten_overwrites [3 # 1; 1 # 1] [0; 2 # 1]). reflexivity.
Defined.

(** C2, as stated, fails: with the single objective [[2]] on a reaction
    bounded by [-3, -1] the phase-1 optimum is [2 * -1 = -2], so
    [objective_lbs = [-4]] and the lower bound drops from [-3] to [-4]. *)
Lemma tighten_not_monotone :
  (olb <- objective_lbs_of [[2 # 1]] [-2 # 1] ;; tighten [-3 # 1] olb)
    = Ok [-4 # 1]
  /\ -4 # 1 < -3 # 1.
Proof. split; reflexivity. Qed.

End Tightening.

(** ** Activity derivation *)

Section Activity.

Import GIMME.

(** C5, what the code does instead.  Line 101 collects the variable names
    of the solution, not its fluxes; for a solution with at least one
    variable the comparison of those names with 0 on line 105 raises a
    [TypeError] (an [IndexError] before that when the evidence vector has
    another length), so no activity vector is produced and no flux is
    read. *)
Theorem activity_compares_names (solution : Solution) (exp_vector : vector)
  (flux_threshold : Q) :
  var_values solution <> [] ->
  get_reaction_activity solution exp_vector flux_threshold
  = Raise (if Nat.eqb (length (var_values solution)) (length exp_vector)
           then TypeError else IndexError).
Proof.
  intros H. unfold get_reaction_activity.
  set (names := map (fun ikv : Z * (string * Q) => fst (snd ikv))
                  (enumerate (var_values solution))).
  assert (L : length names = length (var_values solution)).
  { unfold names, enumerate, range.
    rewrite length_map, length_combine, length_map, length_seq. lia. }
  cbv zeta. unfold mask_assign at 1.
  unfold zeros at 1. rewrite repeat_length, length_map, L.
  destruct (Nat.eqb (length (var_values solution)) (length exp_vector));
    [|reflexivity].
  cbn [bind]. destruct names as [|x names]; [|reflexivity].
  destruct (var_values solution); [congruence|discriminate].
Qed.

(** The instance behind [activity_compares_names]: one variable carrying
    flux 1 and evidence 0; the specification asks for the activity [[2]]. *)
Lemma activity_compares_names_witness :
  var_values {| status := Optimal; objective_value := 0;
                var_values := [("GIMME0"%string, 1)] |} <> [] /\
  get_reaction_activity
    {| status := Optimal; objective_value := 0;
       var_values := [("GIMME0"%string, 1)] |} [0] (1 # 10000)
  = Raise TypeError.
Proof.
  split; [discriminate|].
  apply (activity_compares_names
           {| status := Optimal; objective_value := 0;
              var_values := [("GIMME0"%string, 1)] |} [0] (1 # 10000)).
  discriminate.
Defined.

End Activity.

(** ** The two-phase engine *)

Section EngineFacts.

Import GIMME.

Variable optimize : Problem -> Solution.

(** The problem line 49 sets up for an objective: a maximisation. *)
Lemma phase1_records_values (lsystem : LinearSystem) (objs : list vector)
  (t : list Problem) :
  emapM (find_objective_value optimize lsystem) objs t
  = (Ok (map (fun o => objective_value
                         (optimize {| system := lsystem; objective := o;
                                      minimize := false |})) objs),
     t ++ map (fun o => {| system := lsystem; objective := o;
                           minimize := false |}) objs).
Proof.
  revert t; induction objs as [|o objs IH]; intros t; simpl.
  - unfold eret. now rewrite app_nil_r.
  - unfold ebind at 1. unfold find_objective_value at 1.
    unfold ebind at 1. unfold lift at 1. cbn [set_objective].
    unfold ebind at 1. unfold solve at 1. unfold eret at 1.
    unfold ebind at 1. rewrite IH. unfold eret.
    now rewrite <- app_assoc.
Qed.

(** C8, as the code has it.  Phase 1 has no feasibility check: whatever
    the solver answers, and whatever status its solutions carry, lines
    48-53 hand one maximisation per objective to the solver, in order, and
    return the list of the objective values of the solutions; nothing is
    reported and no objective is skipped. *)
Theorem phase1_has_no_feasibility_check (lsystem : LinearSystem)
  (objs : list vector) (t : list Problem) :
  find_objective_values optimize lsystem objs t
  = (Ok (map (fun o => objective_value
                         (optimize {| system := lsystem; objective := o;
                                      minimize := false |})) objs),
     t ++ map (fun o => {| system := lsystem; objective := o;
                           minimize := false |}) objs).
Proof.
  unfold find_objective_values. apply phase1_records_values.
Qed.

End EngineFacts.

Section EngineScenario.

Import GIMME Fixture.

(** C8, as stated, fails: the solver reports the second of two objectives
    infeasible, and lines 48-53 still return a value for each of them, the
    0 of the infeasible one included. *)
Lemma infeasible_objective_not_reported :
  map (fun o => status (solver {| system := two_reactions; objective := o;
                                  minimize := false |})) two_objectives
    = [Optimal; Infeasible]
  /\ fst (find_objective_values solver two_reactions two_objectives [])
     = Ok [1; 0]
  /\ snd (find_objective_values solver two_reactions two_objectives [])
     = map (fun o => {| system := two_reactions; objective := o;
                        minimize := false |}) two_objectives.
Proof. repeat split. Qed.

End EngineScenario.

(** ** The evidence vector *)

Section EvidenceLength.

Import GIMME.

(** The evidence vector has one slot per column of the irreversible
    system. *)
Lemma expression_vector_length (n : nat) (m : mapping)
  (exp_rxns : @dict Z Q) (v : vector) :
  expression_vector n m exp_rxns = Ok v -> length v = n.
Proof.
  unfold expression_vector.
  apply (foldM_invariant (fun v : vector => length v = n)).
  - intros v1 [rxn val] v2 L. unfold assign_evidence. simpl.
    destruct (dict_get Z.eqb m rxn) as [[j|f b]|]; simpl; try discriminate.
    + now intros [= <-].
    + destruct (setitem v1 f val) as [w|] eqn:E1; simpl; [|discriminate].
      intros E2. apply setitem_length in E1, E2. congruence.
  - unfold zeros. apply repeat_length.
Qed.

End EvidenceLength.

(** ** The omics-driven entry point *)

Section Suppression.

Import Wrapper.

Lemma all_false_get (r_ids : list string) (r : string) :
  dict_get String.eqb (all_false r_ids) r
  = if existsb (String.eqb r) r_ids then Ok false else Raise KeyError.
Proof.
  unfold all_false, dict_of.
  rewrite (dict_get_update_const String.eqb String.eqb_eq _ _ _ false).
  - now rewrite map_map, map_id.
  - intros kv H. apply in_map_iff in H as [x [<- _]]. reflexivity.
Qed.

(** C9.  When the run of the algorithm raises, [run_from_omics] prints the
    cause; with [raise_errors=False] it then returns the map sending every
    reaction identifier (and nothing else) to [False]; with the keyword
    left out, or [True], it raises the same exception again.  Suppression
    is therefore opt-in. *)
Theorem suppression_is_opt_in (r_ids : list string) (e : exn) :
  (printed (run_from_omics r_ids (Raise e) (Some false))
     = [("Model reconstruction failed with exception:"%string, e)] /\
   returned (run_from_omics r_ids (Raise e) (Some false))
     = Ok (all_false r_ids) /\
   (forall r, In r r_ids ->
              dict_get String.eqb (all_false r_ids) r = Ok false) /\
   (forall r, ~ In r r_ids ->
              dict_get String.eqb (all_false r_ids) r = Raise KeyError)) /\
  (printed (run_from_omics r_ids (Raise e) None)
     = [("Model reconstruction failed with exception:"%string, e)] /\
   returned (run_from_omics r_ids (Raise e) None) = Raise e) /\
  returned (run_from_omics r_ids (Raise e) (Some true)) = Raise e.
Proof.
  repeat split; try reflexivity.
  - intros r H. rewrite all_false_get.
    replace (existsb (String.eqb r) r_ids) with true; [reflexivity|].
    symmetry. apply existsb_exists. exists r. split; [exact H|].
    apply String.eqb_refl.
  - intros r H. rewrite all_false_get.
    destruct (existsb (String.eqb r) r_ids) eqn:X; [|reflexivity].
    apply existsb_exists in X as [x [Hx Ex]].
    apply String.eqb_eq in Ex. subst x. contradiction.
Qed.

End Suppression.

(** ** The GIMME property bag *)

Section Construction.

Import Properties.

(** C10, what the code does instead.  Whatever the arguments, and whether
    or not the property dictionary checks a value when it is assigned, the
    constructor stores nothing and raises [NameError]: with checks, the
    validator of line 34 reads [ndarray] on the first assignment; without,
    the test [isinstance(obj_frac, ndarray)] of line 42 does. *)
Theorem GIMMEProperties_raises_NameError (checks : bool)
  (exp_vector : list Q) (objectives : list (list Q))
  (obj_frac : obj_frac_arg) (preprocess : option bool)
  (flux_threshold : option Q) :
  GIMMEProperties checks exp_vector objectives obj_frac preprocess
    flux_threshold
  = Raise NameError.
Proof.
  assert (N : global_name "ndarray" = Raise NameError) by reflexivity.
  unfold GIMMEProperties, assign, valid_objectives, stored_obj_frac.
  rewrite N. destruct checks; reflexivity.
Qed.

(** The call of the claim: a float [obj_frac] and one objective. *)
Example GIMMEProperties_float_obj_frac :
  GIMMEProperties true [1] [[1]] (FracFloat (9 # 10)) None None
    = Raise NameError /\
  GIMMEProperties false [1] [[1]] (FracFloat (9 # 10)) None None
    = Raise NameError.
Proof. split; reflexivity. Qed.

End Construction.

(** * Further properties of the code *)

(** ** Further properties: the shape of the transform *)

Section DictOrder.

Context {K V : Type}.
Variable eqb : K -> K -> bool.
Hypothesis eqb_eq : forall x y, eqb x y = true <-> x = y.

Lemma dict_set_fresh (d : @dict K V) (k : K) (v : V) :
  ~ In k (map fst d) -> dict_set eqb d k v = d ++ [(k, v)].
Proof.
  induction d as [|[k0 v0] d IH]; simpl; intros H; [reflexivity|].
  destruct (eqb k k0) eqn:E.
  - apply eqb_eq in E. subst. exfalso. apply H. now left.
  - rewrite IH; [reflexivity|]. intros C. apply H. now right.
Qed.

(** Updating with fresh, pairwise distinct keys appends the items in
    order. *)
Lemma dict_update_fresh (items d : @dict K V) :
  NoDup (map fst items) ->
  (forall k, In k (map fst items) -> ~ In k (map fst d)) ->
  dict_update eqb d items = d ++ items.
Proof.
  unfold dict_update. revert d; induction items as [|[k v] items IH];
    intros d N F; simpl.
  - now rewrite app_nil_r.
  - inversion N as [|? ? Hk N']; subst.
    rewrite dict_set_fresh by (apply F; now left).
    rewrite IH; [now rewrite <- app_assoc|exact N'|].
    intros k' Hk' C. rewrite map_app in C. apply in_app_or in C as [C|C].
    + apply (F k'); [now right|exact C].
    + simpl in C. destruct C as [<-|[]]. contradiction.
Qed.

Lemma dict_of_nodup (items : @dict K V) :
  NoDup (map fst items) -> dict_of eqb items = items.
Proof.
  intros N. unfold dict_of. rewrite dict_update_fresh; auto.
Qed.

End DictOrder.

Section EnumerateFacts.

Context {A : Type}.

Lemma enumerate_from_fst (l : list A) (s : nat) :
  map fst (combine (map Z.of_nat (seq s (length l))) l)
  = map Z.of_nat (seq s (length l)).
Proof.
  revert s; induction l as [|x l IH]; intros s; simpl; [reflexivity|].
  now rewrite IH.
Qed.

Lemma enumerate_from_snd (l : list A) (s : nat) :
  map snd (combine (map Z.of_nat (seq s (length l))) l) = l.
Proof.
  revert s; induction l as [|x l IH]; intros s; simpl; [reflexivity|].
  now rewrite IH.
Qed.

Lemma enumerate_fst (l : list A) : map fst (enumerate l) = range (length l).
Proof. apply enumerate_from_fst. Qed.

Lemma enumerate_snd (l : list A) : map snd (enumerate l) = l.
Proof. apply enumerate_from_snd. Qed.

End EnumerateFacts.

Lemma range_NoDup (n : nat) : NoDup (range n).
Proof.
  unfold range. generalize 0%nat as s.
  induction n as [|n IH]; intros s; simpl; constructor; [|apply IH].
  intros C. apply in_map_iff in C as [x [E H]]. apply in_seq in H. lia.
Qed.

Lemma in_range (n : nat) (i : Z) :
  In i (range n) <-> (0 <= i < Z.of_nat n)%Z.
Proof.
  unfold range. rewrite in_map_iff. split.
  - intros [x [<- H]]. apply in_seq in H. lia.
  - intros H. exists (Z.to_nat i). split; [lia|]. apply in_seq. lia.
Qed.

Section TransformShape.

Import GIMME.

Lemma getitem_in_range {A : Type} (l : list A) (i : Z) :
  (0 <= i < Z.of_nat (length l))%Z -> exists x, getitem l i = Ok x.
Proof.
  intros H. destruct (nth_error l (Z.to_nat i)) as [x|] eqn:E.
  - exists x. rewrite <- (Z2Nat.id i) by lia. now apply getitem_nat.
  - apply nth_error_None in E. lia.
Qed.

Lemma filterM_all_false {A : Type} (f : A -> result bool) (l : list A) :
  (forall x, In x l -> f x = Ok false) -> filterM f l = Ok [].
Proof.
  induction l as [|x l IH]; intros H; simpl; [reflexivity|].
  rewrite (H x) by now left. cbn [bind].
  rewrite IH by (intros y Hy; apply H; now right). reflexivity.
Qed.

(** X1.  A model without a single irreversible reaction (all of its
    reactions have [lb < 0 < ub], or it has no reaction at all) cannot be
    transformed: the empty index array of line 82 is refused as an index on
    line 83. *)
Theorem make_irreversible_all_reversible (Sm : matrix) (lb ub : vector) :
  (forall i, (i < length Sm)%nat ->
     exists l u, nth_error lb i = Some l /\ nth_error ub i = Some u /\
                 l < 0 /\ 0 < u) ->
  make_irreversible Sm lb ub = Raise IndexError.
Proof.
  intros H.
  assert (E : irrev_of (length Sm) lb ub = Ok []).
  { unfold irrev_of. apply filterM_all_false. intros x Hx.
    apply in_range in Hx.
    destruct (H (Z.to_nat x)) as [l [u [Hl [Hu [L U]]]]]; [lia|].
    unfold is_reversible. rewrite <- (Z2Nat.id x) by lia.
    rewrite (getitem_nat _ _ _ Hl). cbn [bind].
    apply Qltb_iff in L. rewrite L.
    rewrite (getitem_nat _ _ _ Hu). cbn [bind].
    apply Qltb_iff in U. now rewrite U. }
  unfold make_irreversible, split_columns. now rewrite E.
Qed.

Lemma make_irreversible_all_reversible_witness :
  (forall i, (i < 2)%nat ->
     exists l u, nth_error [-5 # 1; -1 # 1] i = Some l /\
                 nth_error [5 # 1; 1] i = Some u /\ l < 0 /\ 0 < u) /\
  make_irreversible [[1]; [2 # 1]] [-5 # 1; -1 # 1] [5 # 1; 1]
  = Raise IndexError.
Proof.
  assert (H : forall i, (i < 2)%nat ->
     exists l u, nth_error [-5 # 1; -1 # 1] i = Some l /\
                 nth_error [5 # 1; 1] i = Some u /\ l < 0 /\ 0 < u).
  { intros [|[|i]] Hi; simpl in Hi; [| |lia];
      do 2 eexists; repeat split; reflexivity. }
  split; [exact H|].
  exact (make_irreversible_all_reversible [[1]; [2 # 1]] _ _ H).
Defined.

End TransformShape.

Section TransformReturns.

Import GIMME.

Lemma getitem_only_IndexError {A : Type} (l : list A) (j : Z) (e : exn) :
  getitem l j = Raise e -> e = IndexError.
Proof.
  unfold getitem. destruct (norm_index (length l) j) as [k|].
  - destruct (nth_error l k); [discriminate|]. now intros [= <-].
  - now intros [= <-].
Qed.

Lemma mapM_only {A B : Type} (f : A -> result B) (l : list A) (e0 e : exn) :
  (forall x e', f x = Raise e' -> e' = e0) ->
  mapM f l = Raise e -> e = e0.
Proof.
  intros H. induction l as [|x l IH]; simpl; [discriminate|].
  destruct (f x) as [y|e1] eqn:E; cbn [bind].
  - destruct (mapM f l) as [ys|e2]; cbn [bind]; [discriminate|].
    intros [= <-]. now apply IH.
  - intros [= <-]. eapply H; eauto.
Qed.

Lemma filterM_only {A : Type} (f : A -> result bool) (l : list A)
  (e0 e : exn) :
  (forall x e', f x = Raise e' -> e' = e0) ->
  filterM f l = Raise e -> e = e0.
Proof.
  intros H. induction l as [|x l IH]; simpl; [discriminate|].
  destruct (f x) as [y|e1] eqn:E; cbn [bind].
  - destruct (filterM f l) as [ys|e2]; cbn [bind]; [discriminate|].
    intros [= <-]. now apply IH.
  - intros [= <-]. eapply H; eauto.
Qed.

Lemma mapM_succeeds {A B : Type} (f : A -> result B) (l : list A) :
  (forall x, In x l -> exists y, f x = Ok y) -> exists l', mapM f l = Ok l'.
Proof.
  induction l as [|x l IH]; intros H; simpl; [now exists []|].
  destruct (H x) as [y E]; [now left|]. rewrite E. cbn [bind].
  destruct IH as [ys Es]; [intros z Hz; apply H; now right|].
  rewrite Es. cbn [bind]. now eexists.
Qed.

Lemma getitem_negated {A : Type} (l : list A) (i : Z) :
  (0 <= i < Z.of_nat (length l))%Z -> exists x, getitem l (- i) = Ok x.
Proof.
  intros H. destruct (Z.eq_dec i 0) as [->|D].
  - apply getitem_in_range. lia.
  - unfold getitem, norm_index.
    replace (0 <=? - i)%Z with false by (symmetry; apply Z.leb_gt; lia).
    cbn [andb].
    replace (- Z.of_nat (length l) <=? - i)%Z with true
      by (symmetry; apply Z.leb_le; lia).
    replace (- i <? 0)%Z with true by (symmetry; apply Z.ltb_lt; lia).
    cbn [andb].
    destruct (nth_error l (Z.to_nat (Z.of_nat (length l) + - i))) as [x|]
      eqn:E; [now exists x|].
    apply nth_error_None in E. lia.
Qed.

(** Lines 82-84 raise nothing but [IndexError]. *)
Lemma split_columns_only_IndexError (Sm : matrix) (lb ub : vector)
  (e : exn) :
  split_columns Sm lb ub = Raise e -> e = IndexError.
Proof.
  unfold split_columns.
  destruct (irrev_of (length Sm) lb ub) as [irrev|e1] eqn:EI; cbn [bind].
  2:{ intros [= <-]. unfold irrev_of in EI.
      apply (filterM_only _ _ IndexError) in EI; [exact EI|].
      intros x e'. unfold is_reversible.
      destruct (getitem lb x) as [l|e2] eqn:E1; cbn [bind].
      - destruct (Qltb l 0); cbn [bind]; [|discriminate].
        destruct (getitem ub x) as [u|e3] eqn:E2; cbn [bind];
          [discriminate|].
        intros [= <-]. eapply getitem_only_IndexError; eauto.
      - intros [= <-]. eapply getitem_only_IndexError; eauto. }
  destruct (index_array irrev) as [idx|e1] eqn:EX; cbn [bind].
  2:{ intros [= <-]. destruct irrev; simpl in EX; congruence. }
  destruct (take_columns Sm idx) as [Si|e1] eqn:E1; cbn [bind].
  2:{ intros [= <-]. apply (mapM_only _ _ IndexError) in E1; [exact E1|].
      intros x e'. apply getitem_only_IndexError. }
  destruct (take_columns Sm (map Z.opp idx)) as [Sr|e1] eqn:E2; cbn [bind].
  2:{ intros [= <-]. apply (mapM_only _ _ IndexError) in E2; [exact E2|].
      intros x e'. apply getitem_only_IndexError. }
  discriminate.
Qed.

(** With bounds for every reaction and at least one irreversible reaction,
    lines 82-84 end normally: a negated index is always within the
    matrix. *)
Lemma split_columns_succeeds (Sm : matrix) (lb ub : vector)
  (irrev : list Z) :
  irrev_of (length Sm) lb ub = Ok irrev -> irrev <> [] ->
  exists Si Sr, split_columns Sm lb ub = Ok (irrev, Si, Sr).
Proof.
  intros EI NE.
  assert (InI : forall i, In i irrev -> (0 <= i < Z.of_nat (length Sm))%Z).
  { intros i Hi. pose proof (filterM_filter _ _ _ EI) as F.
    rewrite F in Hi. apply filter_In in Hi as [Hi _]. now apply in_range. }
  unfold split_columns. rewrite EI. cbn [bind].
  assert (IA : index_array irrev = Ok irrev)
    by (destruct irrev; [now destruct NE|reflexivity]).
  rewrite IA. cbn [bind].
  destruct (mapM_succeeds (getitem Sm) irrev) as [Si ESi].
  { intros i Hi. apply getitem_in_range. auto. }
  destruct (mapM_succeeds (getitem Sm) (map Z.opp irrev)) as [Sr ESr].
  { intros x Hx. apply in_map_iff in Hx as [i [<- Hi]].
    apply getitem_negated. auto. }
  unfold take_columns. rewrite ESi, ESr. cbn [bind]. now exists Si, Sr.
Qed.

(** X2.  The transform never returns.  It raises [IndexError] when lines
    82-83 fail, which, once line 82 has read the bounds of every reaction,
    is exactly when the model has no irreversible reaction, and
    [NameError] at line 86 in every other case. *)
Theorem make_irreversible_raises (Sm : matrix) (lb ub : vector) :
  (forall out, make_irreversible Sm lb ub <> Ok out) /\
  (make_irreversible Sm lb ub = Raise IndexError \/
   make_irreversible Sm lb ub = Raise NameError) /\
  (forall irrev, irrev_of (length Sm) lb ub = Ok irrev ->
     (irrev = [] -> make_irreversible Sm lb ub = Raise IndexError) /\
     (irrev <> [] -> make_irreversible Sm lb ub = Raise NameError)).
Proof.
  assert (Two : make_irreversible Sm lb ub = Raise IndexError \/
                make_irreversible Sm lb ub = Raise NameError).
  { unfold make_irreversible.
    destruct (split_columns Sm lb ub) as [cols|e] eqn:E; cbn [bind];
      [now right|left].
    f_equal. eapply split_columns_only_IndexError; eauto. }
  split; [|split; [exact Two|]].
  - intros out. destruct Two as [-> | ->]; discriminate.
  - intros irrev EI. split.
    + intros ->. unfold make_irreversible, split_columns. now rewrite EI.
    + intros NE. destruct (split_columns_succeeds _ _ _ _ EI NE)
        as [Si [Sr E]].
      unfold make_irreversible. now rewrite E.
Qed.

End TransformReturns.

Section TransformOutput.

Import GIMME.

Lemma dict_get_only_KeyError {K V : Type} (eqb : K -> K -> bool)
  (d : @dict K V) (k : K) (e : exn) :
  dict_get eqb d k = Raise e -> e = KeyError.
Proof.
  induction d as [|[k0 v0] d IH]; simpl; [now intros [= <-]|].
  destruct (eqb k k0); [discriminate|exact IH].
Qed.

Lemma mapM_nth {A B : Type} (f : A -> result B) (l : list A) (l' : list B)
  (p : nat) (x : A) :
  mapM f l = Ok l' -> nth_error l p = Some x ->
  exists y, f x = Ok y /\ nth_error l' p = Some y.
Proof.
  revert l' p; induction l as [|a l IH]; intros l' p; simpl.
  - intros _ H. destruct p; discriminate.
  - destruct (f a) as [b|] eqn:E; cbn [bind]; [|discriminate].
    destruct (mapM f l) as [bs|] eqn:Es; cbn [bind]; [|discriminate].
    intros [= <-]. destruct p as [|p]; simpl.
    + intros [= <-]. now exists b.
    + intros H. now apply (IH bs p).
Qed.

(** The column a negated index selects: column 0 for the reaction 0,
    column [N - i] for any other reaction [i]. *)
Lemma getitem_negated_nth {A : Type} (l : list A) (i : Z) (x : A) :
  (0 <= i < Z.of_nat (length l))%Z -> getitem l (- i) = Ok x ->
  nth_error l (if (i =? 0)%Z then 0 else length l - Z.to_nat i) = Some x.
Proof.
  intros H. destruct (Z.eqb_spec i 0) as [->|D].
  - change (- 0)%Z with (Z.of_nat 0). intros G.
    destruct (nth_error l 0) as [y|] eqn:E.
    + rewrite (getitem_nat _ _ _ E) in G. congruence.
    + apply nth_error_None in E. lia.
  - unfold getitem, norm_index.
    replace (0 <=? - i)%Z with false by (symmetry; apply Z.leb_gt; lia).
    cbn [andb].
    replace (- Z.of_nat (length l) <=? - i)%Z with true
      by (symmetry; apply Z.leb_le; lia).
    replace (- i <? 0)%Z with true by (symmetry; apply Z.ltb_lt; lia).
    cbn [andb].
    replace (Z.to_nat (Z.of_nat (length l) + - i))
      with (length l - Z.to_nat i)%nat by lia.
    destruct (nth_error l (length l - Z.to_nat i)) as [y|];
      [now intros [= <-]|discriminate].
Qed.

(** X4.  The columns lines 82-83 select.  For the [p]-th irreversible
    reaction [i], column [p] of [Si] is column [i] of the model, and column
    [p] of [Sr] is the column at the negated index [-i]: the column of
    reaction 0 for [i = 0], of reaction [N - i] otherwise, whether that
    reaction is reversible or not. *)
Theorem split_columns_select (Sm : matrix) (lb ub : vector)
  (irrev : list Z) (Si Sr : matrix) :
  split_columns Sm lb ub = Ok (irrev, Si, Sr) ->
  forall p i, nth_error irrev p = Some i ->
  exists c c',
    nth_error Si p = Some c /\ nth_error Sr p = Some c' /\
    nth_error Sm (Z.to_nat i) = Some c /\
    nth_error Sm (if (i =? 0)%Z then 0 else length Sm - Z.to_nat i)
    = Some c'.
Proof.
  intros H p i Hp.
  apply split_columns_inv in H as [EI [_ [ESi ESr]]].
  assert (Hi : (0 <= i < Z.of_nat (length Sm))%Z).
  { pose proof (filterM_filter _ _ _ EI) as F.
    apply nth_error_In in Hp. rewrite F in Hp.
    apply filter_In in Hp as [Hp _]. now apply in_range. }
  destruct (mapM_nth _ _ _ _ _ ESi Hp) as [c [Gc Nc]].
  assert (Hp' : nth_error (map Z.opp irrev) p = Some (- i)%Z)
    by (rewrite nth_error_map, Hp; reflexivity).
  destruct (mapM_nth _ _ _ _ _ ESr Hp') as [c' [Gc' Nc']].
  exists c, c'. split; [exact Nc|]. split; [exact Nc'|]. split.
  - destruct (nth_error Sm (Z.to_nat i)) as [y|] eqn:E.
    + rewrite <- (Z2Nat.id i) in Gc by lia.
      rewrite (getitem_nat _ _ _ E) in Gc. congruence.
    + apply nth_error_None in E. lia.
  - now apply getitem_negated_nth.
Qed.

(** Three reactions, the last one reversible: the block [Sr] holds the
    column of reaction 0 and, for reaction 1, the column of reaction 2. *)
Lemma split_columns_select_witness :
  split_columns [[1]; [2 # 1]; [3 # 1]] [0; 0; -1 # 1] [1; 1; 1]
    = Ok ([0; 1]%Z, [[1]; [2 # 1]], [[1]; [3 # 1]]) /\
  forall p i, nth_error [0; 1]%Z p = Some i ->
  exists c c',
    nth_error [[1]; [2 # 1]] p = Some c /\
    nth_error [[1]; [3 # 1]] p = Some c' /\
    nth_error [[1]; [2 # 1]; [3 # 1]] (Z.to_nat i) = Some c /\
    nth_error [[1]; [2 # 1]; [3 # 1]]
      (if (i =? 0)%Z then 0 else 3 - Z.to_nat i) = Some c'.
Proof.
  split; [reflexivity|].
  apply (split_columns_select [[1]; [2 # 1]; [3 # 1]] [0; 0; -1 # 1]
           [1; 1; 1] [0; 1]%Z [[1]; [2 # 1]] [[1]; [3 # 1]]).
  reflexivity.
Defined.

End TransformOutput.

(** ** Further properties: objectives and evidence *)

Section LoopFacts.

Context {A St : Type}.
Variable f : St -> A -> result St.

(** A loop that ends normally has run every one of its turns. *)
Lemma foldM_steps (l : list A) (s s' : St) :
  foldM f l s = Ok s' ->
  forall x, In x l -> exists s1 s2, f s1 x = Ok s2.
Proof.
  revert s; induction l as [|a l IH]; intros s; simpl; [contradiction|].
  destruct (f s a) as [s1|] eqn:E; cbn [bind]; [|discriminate].
  intros H x [<-|Hx]; [now exists s, s1|]. eapply IH; eauto.
Qed.

(** What one turn establishes and every turn preserves holds at the end. *)
Lemma foldM_established (P : St -> Prop) (l : list A) (x : A) (s s' : St) :
  In x l ->
  (forall s1 s2, f s1 x = Ok s2 -> P s2) ->
  (forall y s1 s2, In y l -> P s1 -> f s1 y = Ok s2 -> P s2) ->
  foldM f l s = Ok s' -> P s'.
Proof.
  intros Hx Est Pre. revert s Hx.
  assert (Keep : forall l0 s0 s0', (forall y, In y l0 -> In y l) ->
                   P s0 -> foldM f l0 s0 = Ok s0' -> P s0').
  { induction l0 as [|a l0 IH]; intros s0 s0' Sub Hp; simpl.
    - now intros [= <-].
    - destruct (f s0 a) as [s1|] eqn:E; cbn [bind]; [|discriminate].
      apply IH; [intros y Hy; apply Sub; now right|].
      eapply Pre; eauto. apply Sub. now left. }
  assert (G : forall l0 s0, (forall y, In y l0 -> In y l) -> In x l0 ->
                foldM f l0 s0 = Ok s' -> P s').
  { induction l0 as [|a l0 IH]; intros s0 Sub Hin; [contradiction|].
    simpl. destruct (f s0 a) as [s1|] eqn:E; cbn [bind]; [|discriminate].
    destruct Hin as [->|Hin].
    - apply Keep; [intros y Hy; apply Sub; now right|].
      eapply Est; eauto.
    - apply IH; [intros y Hy; apply Sub; now right|exact Hin]. }
  intros s Hx. now apply G.
Qed.

End LoopFacts.

Section ObjectiveAdapter.

Import GIMME.

Lemma in_nonzero (v : vector) (i : Z) :
  In i (nonzero v) <->
  exists p w, i = Z.of_nat p /\ nth_error v p = Some w /\ Qnonzero w = true.
Proof.
  rewrite nonzero_nat, in_map_iff. split.
  - intros [p [<- H]]. apply filter_In in H as [H1 H2].
    apply in_seq in H1.
    destruct (nth_error v p) as [w|] eqn:E;
      [|apply nth_error_None in E; lia].
    exists p, w. rewrite (nth_error_nth _ _ 0 E) in H2. auto.
  - intros [p [w [-> [E N]]]]. exists p. split; [reflexivity|].
    apply filter_In. split.
    + apply in_seq. assert (p < length v)%nat; [|lia].
      apply nth_error_Some. congruence.
    + now rewrite (nth_error_nth _ _ 0 E).
Qed.

Lemma adjust_step_inv (m : mapping) (objective r r' : vector) (id : Z) :
  (rx <- dict_get Z.eqb m id ;;
   w <- getitem objective id ;;
   match rx with
   | Single j => setitem r j w
   | Pair _ _ => Raise IndexError
   end) = Ok r' ->
  exists j w, dict_get Z.eqb m id = Ok (Single j) /\
              getitem objective id = Ok w /\ setitem r j w = Ok r'.
Proof.
  destruct (dict_get Z.eqb m id) as [[j|f b]|]; cbn [bind]; try discriminate.
  - destruct (getitem objective id) as [w|]; cbn [bind]; [|discriminate].
    intros H. now exists j, w.
  - destruct (getitem objective id); cbn [bind]; discriminate.
Qed.

(** X5.  The objective adapter on a map whose scalar entries claim
    distinct, non-negative new indices.  When it returns, every nonzero
    weight sits on a reaction with a scalar entry (a nonzero weight on a
    split reaction or on a reaction missing from the map makes it raise),
    the result has one entry per new column, and each nonzero weight is
    found at the new index of its reaction. *)
Theorem adjust_objective_places_weights (S_new : matrix)
  (objective : vector) (m : mapping) (r : vector) :
  (forall i i' j j', In (i, Single j) m -> In (i', Single j') m ->
                     (0 <= j)%Z /\ (j = j' -> i = i')) ->
  adjust_objective_to_irreversible S_new objective m = Ok r ->
  length r = length S_new /\
  forall p w, nth_error objective p = Some w -> Qnonzero w = true ->
    exists j, dict_get Z.eqb m (Z.of_nat p) = Ok (Single j) /\
              getitem r j = Ok w.
Proof.
  intros Inj H. unfold adjust_objective_to_irreversible in H. split.
  - revert H.
    apply (foldM_invariant (fun v : vector => length v = length S_new));
      [|unfold zeros; apply repeat_length].
    intros r1 id r2 L E. apply adjust_step_inv in E as [j [w [_ [_ E]]]].
    apply setitem_length in E. congruence.
  - intros p w Hp Hw.
    assert (Hin : In (Z.of_nat p) (nonzero objective))
      by (apply in_nonzero; now exists p, w).
    destruct (foldM_steps _ _ _ _ H _ Hin) as [r1 [r2 E]].
    apply adjust_step_inv in E as [j [w' [Hm [Hg _]]]].
    rewrite (getitem_nat _ _ _ Hp) in Hg. inversion Hg; subst w'.
    exists j. split; [exact Hm|].
    revert H.
    apply (foldM_established _ (fun v : vector => getitem v j = Ok w)
             _ (Z.of_nat p)); [exact Hin| |].
    + intros s1 s2 E. apply adjust_step_inv in E as [j' [w' [Hm' [Hg' E]]]].
      rewrite Hm in Hm'. rewrite (getitem_nat _ _ _ Hp) in Hg'.
      inversion Hm'; inversion Hg'; subst.
      eapply setitem_get_same; eauto.
    + intros y s1 s2 Hy Ps E.
      apply adjust_step_inv in E as [j' [w' [Hm' [Hg' E]]]].
      destruct (Z.eq_dec j' j) as [->|D].
      * apply dict_get_in in Hm, Hm'.
        destruct (Inj _ _ _ _ Hm' Hm) as [_ Same].
        rewrite (Same eq_refl) in Hg'.
        rewrite (getitem_nat _ _ _ Hp) in Hg'. inversion Hg'; subst.
        eapply setitem_get_same; eauto.
      * rewrite (setitem_get_other _ _ _ _ _ E); auto.
        -- apply dict_get_in in Hm'. now destruct (Inj _ _ _ _ Hm' Hm').
        -- apply dict_get_in in Hm. now destruct (Inj _ _ _ _ Hm Hm).
Qed.

Lemma adjust_objective_places_weights_witness :
  (forall i i' j j',
      In (i, Single j) [(2%Z, Pair 2 4); (0%Z, Single 0); (1%Z, Single 1)] ->
      In (i', Single j')
         [(2%Z, Pair 2 4); (0%Z, Single 0); (1%Z, Single 1)] ->
      (0 <= j)%Z /\ (j = j' -> i = i')) /\
  adjust_objective_to_irreversible [[]; []; []; []; []; []] [0; 3 # 1; 0]
    [(2%Z, Pair 2 4); (0%Z, Single 0); (1%Z, Single 1)]
    = Ok [0; 3 # 1; 0; 0; 0; 0] /\
  length [0; 3 # 1; 0; 0; 0; 0] = 6%nat /\
  forall p w, nth_error [0; 3 # 1; 0] p = Some w -> Qnonzero w = true ->
    exists j,
      dict_get Z.eqb [(2%Z, Pair 2 4); (0%Z, Single 0); (1%Z, Single 1)]
        (Z.of_nat p) = Ok (Single j) /\
      getitem [0; 3 # 1; 0; 0; 0; 0] j = Ok w.
Proof.
  assert (Inj : forall i i' j j',
      In (i, Single j) [(2%Z, Pair 2 4); (0%Z, Single 0); (1%Z, Single 1)] ->
      In (i', Single j')
         [(2%Z, Pair 2 4); (0%Z, Single 0); (1%Z, Single 1)] ->
      (0 <= j)%Z /\ (j = j' -> i = i')).
  { intros i i' j j' [E|[E|[E|[]]]] [E'|[E'|[E'|[]]]];
      inversion E; inversion E'; subst; split; try lia; congruence. }
  split; [exact Inj|]. split; [reflexivity|].
  apply (adjust_objective_places_weights [[]; []; []; []; []; []]
           [0; 3 # 1; 0]
           [(2%Z, Pair 2 4); (0%Z, Single 0); (1%Z, Single 1)]
           [0; 3 # 1; 0; 0; 0; 0] Inj).
  reflexivity.
Defined.

End ObjectiveAdapter.

Section MapEach.

Lemma mapM_each {A B : Type} (f : A -> result B) (l : list A) (l' : list B) :
  mapM f l = Ok l' -> forall x, In x l -> exists y, f x = Ok y.
Proof.
  revert l'; induction l as [|a l IH]; intros l'; simpl; [contradiction|].
  destruct (f a) as [b|] eqn:E; cbn [bind]; [|discriminate].
  destruct (mapM f l) as [bs|] eqn:Es; cbn [bind]; [|discriminate].
  intros _ x [<-|Hx]; [now exists b|]. now apply (IH bs).
Qed.

End MapEach.

Section EvidenceSlots.

Import GIMME.

Lemma nodup_keys_value {V : Type} (l : list (Z * V)) (k : Z) (v v' : V) :
  NoDup (map fst l) -> In (k, v) l -> In (k, v') l -> v = v'.
Proof.
  induction l as [|[k0 v0] l IH]; simpl; [contradiction|].
  intros N [E|H] [E'|H']; inversion N as [|? ? Nk N']; subst.
  - congruence.
  - inversion E; subst. exfalso. apply Nk.
    apply in_map_iff. now exists (k, v').
  - inversion E'; subst. exfalso. apply Nk.
    apply in_map_iff. now exists (k, v).
  - now apply IH.
Qed.

(** X7.  Evidence for split reactions.  For an evidence dict (distinct
    keys) and a map whose tuples claim non-negative new indices and share
    none between two reactions, the value supplied for a split reaction is
    found in both of its slots when the loop of lines 27-30 ends. *)
Theorem evidence_reaches_both_slots (n : nat) (m : mapping)
  (exp_rxns : @dict Z Q) (exp_vector : vector) (rxn f b : Z) (val : Q) :
  NoDup (dict_keys exp_rxns) ->
  (forall i i' f1 b1 f2 b2,
     In (i, Pair f1 b1) m -> In (i', Pair f2 b2) m ->
     (0 <= f1)%Z /\ (0 <= b1)%Z /\
     (i = i' \/ (f1 <> f2 /\ f1 <> b2 /\ b1 <> f2 /\ b1 <> b2))) ->
  expression_vector n m exp_rxns = Ok exp_vector ->
  In (rxn, val) exp_rxns ->
  dict_get Z.eqb m rxn = Ok (Pair f b) ->
  getitem exp_vector f = Ok val /\ getitem exp_vector b = Ok val.
Proof.
  intros N Ap H Hin Hm. unfold expression_vector in H. revert H.
  assert (Est : forall s1 s2, assign_evidence m s1 (rxn, val) = Ok s2 ->
                  getitem s2 f = Ok val /\ getitem s2 b = Ok val).
  { intros s1 s2. unfold assign_evidence. cbn [fst snd]. rewrite Hm.
    cbn [bind].
    destruct (setitem s1 f val) as [w|] eqn:E1; cbn [bind]; [|discriminate].
    intros E2. split; [|eapply setitem_get_same; eauto].
    destruct (Z.eq_dec f b) as [->|D]; [eapply setitem_get_same; eauto|].
    apply dict_get_in in Hm. destruct (Ap _ _ _ _ _ _ Hm Hm) as [Hf [Hb _]].
    rewrite (setitem_get_other _ _ _ _ _ E2); auto.
    eapply setitem_get_same; eauto. }
  apply (foldM_established _
           (fun v : vector => getitem v f = Ok val /\ getitem v b = Ok val)
           _ (rxn, val)); [exact Hin|exact Est|].
  intros [rxn' val'] s1 s2 Hy [Pf Pb] E.
  destruct (Z.eq_dec rxn' rxn) as [->|D].
  - rewrite (nodup_keys_value _ _ _ _ N Hy Hin) in E. now apply (Est s1).
  - unfold assign_evidence in E. cbn [fst snd] in E.
    destruct (dict_get Z.eqb m rxn') as [[j|f' b']|] eqn:Hm'; cbn [bind] in E;
      try discriminate.
    + inversion E; subst. auto.
    + destruct (setitem s1 f' val') as [w|] eqn:E1; cbn [bind] in E;
        [|discriminate].
      apply dict_get_in in Hm, Hm'.
      destruct (Ap _ _ _ _ _ _ Hm' Hm) as [Hf' [Hb' [C|[D1 [D2 [D3 D4]]]]]];
        [congruence|].
      destruct (Ap _ _ _ _ _ _ Hm Hm) as [Hf [Hb _]].
      rewrite !(setitem_get_other _ _ _ _ _ E),
              !(setitem_get_other _ _ _ _ _ E1); auto.
Qed.

Lemma evidence_reaches_both_slots_witness :
  NoDup (dict_keys [(0%Z, 7 # 1); (1%Z, 3 # 1)]) /\
  (forall i i' f1 b1 f2 b2,
     In (i, Pair f1 b1) [(1%Z, Pair 1 2); (0%Z, Single 0)] ->
     In (i', Pair f2 b2) [(1%Z, Pair 1 2); (0%Z, Single 0)] ->
     (0 <= f1)%Z /\ (0 <= b1)%Z /\
     (i = i' \/ (f1 <> f2 /\ f1 <> b2 /\ b1 <> f2 /\ b1 <> b2))) /\
  expression_vector 3 [(1%Z, Pair 1 2); (0%Z, Single 0)]
    [(0%Z, 7 # 1); (1%Z, 3 # 1)] = Ok [0; 3 # 1; 3 # 1] /\
  In (1%Z, 3 # 1) [(0%Z, 7 # 1); (1%Z, 3 # 1)] /\
  dict_get Z.eqb [(1%Z, Pair 1 2); (0%Z, Single 0)] 1%Z = Ok (Pair 1 2) /\
  getitem [0; 3 # 1; 3 # 1] 1 = Ok (3 # 1) /\
  getitem [0; 3 # 1; 3 # 1] 2 = Ok (3 # 1).
Proof.
  assert (N : NoDup (dict_keys [(0%Z, 7 # 1); (1%Z, 3 # 1)])).
  { simpl. repeat constructor; simpl; intuition discriminate. }
  assert (Ap : forall i i' f1 b1 f2 b2,
     In (i, Pair f1 b1) [(1%Z, Pair 1 2); (0%Z, Single 0)] ->
     In (i', Pair f2 b2) [(1%Z, Pair 1 2); (0%Z, Single 0)] ->
     (0 <= f1)%Z /\ (0 <= b1)%Z /\
     (i = i' \/ (f1 <> f2 /\ f1 <> b2 /\ b1 <> f2 /\ b1 <> b2))).
  { intros i i' f1 b1 f2 b2 [E|[E|[]]] [E'|[E'|[]]];
      inversion E; inversion E'; subst. repeat split; lia. }
  split; [exact N|]. split; [exact Ap|]. split; [reflexivity|].
  split; [simpl; auto|]. split; [reflexivity|].
  apply (evidence_reaches_both_slots 3 [(1%Z, Pair 1 2); (0%Z, Single 0)]
           [(0%Z, 7 # 1); (1%Z, 3 # 1)] [0; 3 # 1; 3 # 1] 1%Z 1%Z 2%Z
           (3 # 1) N Ap);
    [reflexivity|simpl; auto|reflexivity].
Defined.

End EvidenceSlots.

(** ** Further properties: the penalty objective and the run *)

Section PenaltyFacts.

Import GIMME.

Lemma mapM_nth_inv {A B : Type} (f : A -> result B) (l : list A)
  (l' : list B) (p : nat) (y : B) :
  mapM f l = Ok l' -> nth_error l' p = Some y ->
  exists x, nth_error l p = Some x /\ f x = Ok y.
Proof.
  revert l' p; induction l as [|a l IH]; intros l' p; simpl.
  - intros [= <-] H. destruct p; discriminate.
  - destruct (f a) as [b|] eqn:E; cbn [bind]; [|discriminate].
    destruct (mapM f l) as [bs|] eqn:Es; cbn [bind]; [|discriminate].
    intros [= <-]. destruct p as [|p]; simpl.
    + intros [= <-]. now exists a.
    + intros H. now apply (IH bs p).
Qed.

(** X8.  No entry of the penalty objective is negative, whatever the
    threshold and the evidence. *)
Theorem penalty_nonnegative (flux_thres : Q) (exp_vector : vector) (N : nat)
  (penalty : vector) :
  gimme_model_objective flux_thres exp_vector N = Ok penalty ->
  forall i x, nth_error penalty i = Some x -> 0 <= x.
Proof.
  intros H i x Hx. unfold gimme_model_objective in H.
  destruct (mapM_nth_inv _ _ _ _ _ H Hx) as [j [_ E]].
  destruct (getitem exp_vector j) as [e|]; cbn [bind] in E; [|discriminate].
  inversion E as [E']. clear E E'.
  destruct (Qltb (-1) e && Qltb e flux_thres) eqn:C; [|apply Qle_refl].
  apply andb_prop in C as [_ C]. apply Qltb_iff in C.
  apply Qlt_le_weak. unfold Qminus. now apply (proj1 (Qlt_minus_iff _ _)).
Qed.

Lemma penalty_nonnegative_witness :
  gimme_model_objective (1 # 2) [0; -1 # 1; 1 # 4; 1 # 2; 3 # 1] 5
    = Ok [1 # 2; 0; 2 # 8; 0; 0] /\
  forall i x, nth_error [1 # 2; 0; 2 # 8; 0; 0] i = Some x -> 0 <= x.
Proof.
  split; [reflexivity|].
  apply (penalty_nonnegative (1 # 2) [0; -1 # 1; 1 # 4; 1 # 2; 3 # 1] 5).
  reflexivity.
Defined.

Lemma penalty_succeeds (flux_thres : Q) (exp_vector : vector) (N : nat) :
  (N <= length exp_vector)%nat ->
  exists penalty,
    gimme_model_objective flux_thres exp_vector N = Ok penalty /\
    length penalty = N.
Proof.
  intros L. unfold gimme_model_objective.
  destruct (mapM_succeeds
              (fun i => e <- getitem exp_vector i ;;
                        Ok (if Qltb (-1) e && Qltb e flux_thres
                            then flux_thres - e else 0)) (range N))
    as [p Hp].
  - intros x Hx. apply in_range in Hx.
    destruct (getitem_in_range exp_vector x) as [e E]; [lia|].
    rewrite E. cbn [bind]. now eexists.
  - exists p. split; [exact Hp|].
    apply mapM_length in Hp. rewrite Hp. unfold range.
    now rewrite length_map, length_seq.
Qed.

(** X9.  The penalty objective is built exactly when the evidence vector
    has a slot for each of the [N] columns; with a shorter evidence vector
    line 55 raises [IndexError]. *)
Theorem penalty_returns_iff (flux_thres : Q) (exp_vector : vector) (N : nat) :
  ((exists penalty,
       gimme_model_objective flux_thres exp_vector N = Ok penalty /\
       length penalty = N)
   <-> (N <= length exp_vector)%nat) /\
  ((length exp_vector < N)%nat ->
   gimme_model_objective flux_thres exp_vector N = Raise IndexError).
Proof.
  assert (Only : forall e,
             gimme_model_objective flux_thres exp_vector N = Raise e ->
             e = IndexError).
  { intros e H. unfold gimme_model_objective in H.
    apply (mapM_only _ _ IndexError) in H; [exact H|].
    intros x e'. destruct (getitem exp_vector x) as [v|e2] eqn:G;
      cbn [bind]; [discriminate|].
    intros [= <-]. eapply getitem_only_IndexError; eauto. }
  assert (Fwd : forall penalty,
             gimme_model_objective flux_thres exp_vector N = Ok penalty ->
             (N <= length exp_vector)%nat).
  { intros penalty H. unfold gimme_model_objective in H.
    destruct (Nat.le_gt_cases N (length exp_vector)) as [L|G]; [exact L|].
    exfalso.
    assert (Hin : In (Z.of_nat (length exp_vector)) (range N))
      by (apply in_range; lia).
    destruct (mapM_each _ _ _ H _ Hin) as [y E].
    unfold getitem in E.
    destruct (norm_index (length exp_vector)
                (Z.of_nat (length exp_vector))) as [k|] eqn:Nk;
      [|discriminate].
    pose proof (norm_index_bound _ _ _ Nk).
    apply norm_index_nonneg in Nk; [|lia]. rewrite Nat2Z.id in Nk. lia. }
  split; [split|].
  - intros [penalty [H _]]. eapply Fwd; eauto.
  - intros L. now apply penalty_succeeds.
  - intros G.
    assert (D : (exists p,
                    gimme_model_objective flux_thres exp_vector N = Ok p) \/
                (exists e,
                    gimme_model_objective flux_thres exp_vector N = Raise e))
      by (destruct (gimme_model_objective flux_thres exp_vector N); eauto).
    destruct D as [[p E]|[e E]].
    + apply Fwd in E. lia.
    + rewrite E. f_equal. now apply Only.
Qed.

End PenaltyFacts.

Section RunFacts.

Import GIMME.

Variable optimize : Problem -> Solution.





(** X10.  A run never gets as far as the solver.  Line 39 reads
    ['obj_frac'] before [preprocess] can set its default, so a property
    bag without it, or without one of the three other keys, ends the run
    with [KeyError]; with all four keys present the run ends with the
    [NameError] of line 23.  In both cases no problem has been handed to
    the solver. *)
Theorem run_stops_before_solving (Sm : matrix) (lb ub : vector)
  (props : properties) (t : list Problem) :
  run optimize Sm lb ub props t
  = (Raise match obj_frac props, flux_threshold props,
                 expression_rxns props, objectives props with
           | Some _, Some _, Some _, Some _ => NameError
           | _, _, _, _ => KeyError
           end,
     t).
Proof.
  unfold run, preprocess, with_default_obj_frac, ebind, lift, property.
  destruct (obj_frac props) as [q|]; [|reflexivity].
  destruct (flux_threshold props) as [ft|]; [|reflexivity].
  destruct (expression_rxns props) as [e|]; [|reflexivity].
  destruct (objectives props) as [o|]; reflexivity.
Qed.


(** X12.  No run returns an activity vector: whatever the model, the
    properties and the solver, [run] ends in an exception. *)
Theorem run_never_returns (Sm : matrix) (lb ub : vector)
  (props : properties) (t : list Problem) (r : vector) :
  fst (run optimize Sm lb ub props t) <> Ok r.
Proof.
  unfold run, preprocess, with_default_obj_frac, ebind, lift, property.
  destruct (obj_frac props) as [q|]; [|discriminate].
  destruct (flux_threshold props) as [ft|]; [|discriminate].
  destruct (expression_rxns props) as [e|]; [|discriminate].
  destruct (objectives props) as [o|]; discriminate.
Qed.

End RunFacts.

Section RunScenario.

Import GIMME Fixture.


End RunScenario.

(** ** Further properties: identifiers and indices in the wrappers *)

Section DictUpdate.

Context {K V : Type}.
Variable eqb : K -> K -> bool.
Hypothesis eqb_eq : forall x y, eqb x y = true <-> x = y.

Lemma eqb_same (k : K) : eqb k k = true.
Proof. now apply eqb_eq. Qed.

(** A value read after an update comes from the update or was there
    before. *)
Lemma dict_get_update_inv (items d : @dict K V) (k : K) (v : V) :
  dict_get eqb (dict_update eqb d items) k = Ok v ->
  In (k, v) items \/ dict_get eqb d k = Ok v.
Proof.
  unfold dict_update. revert d; induction items as [|[k0 v0] items IH];
    intros d; simpl; auto.
  intros H. apply IH in H as [H|H]; auto.
  rewrite (dict_get_set eqb eqb_eq) in H.
  destruct (eqb k k0) eqn:E; auto.
  apply eqb_eq in E. subst. inversion H; subst. auto.
Qed.

Lemma dict_get_update_other (items d : @dict K V) (k : K) :
  ~ In k (map fst items) ->
  dict_get eqb (dict_update eqb d items) k = dict_get eqb d k.
Proof.
  unfold dict_update. revert d; induction items as [|[k0 v0] items IH];
    intros d H; simpl; [reflexivity|].
  rewrite IH by (intros C; apply H; now right).
  rewrite (dict_get_set eqb eqb_eq).
  destruct (eqb k k0) eqn:E; [|reflexivity].
  apply eqb_eq in E. subst. exfalso. apply H. now left.
Qed.

Lemma dict_get_update_some (items d : @dict K V) (k : K) :
  (exists v, dict_get eqb d k = Ok v) \/ In k (map fst items) ->
  exists v, dict_get eqb (dict_update eqb d items) k = Ok v.
Proof.
  unfold dict_update. revert d; induction items as [|[k0 v0] items IH];
    intros d; simpl.
  - intros [H|[]]. exact H.
  - intros H. apply IH. rewrite (dict_get_set eqb eqb_eq).
    destruct H as [[v H]|[<-|H]].
    + left. destruct (eqb k k0); eauto.
    + left. rewrite eqb_same. eauto.
    + now right.
Qed.

Lemma dict_get_update_nodup (items d : @dict K V) (k : K) (v : V) :
  NoDup (map fst items) -> In (k, v) items ->
  dict_get eqb (dict_update eqb d items) k = Ok v.
Proof.
  revert d; induction items as [|[k0 v0] items IH]; intros d N H;
    [contradiction|].
  inversion N as [|? ? Nk N']; subst. destruct H as [E|H].
  - inversion E; subst. unfold dict_update. simpl.
    change (fold_left _ items ?d0) with (dict_update eqb d0 items).
    rewrite dict_get_update_other by exact Nk.
    now rewrite (dict_get_set eqb eqb_eq), eqb_same.
  - unfold dict_update. simpl. now apply IH.
Qed.

Lemma dict_get_none (d : @dict K V) (k : K) :
  ~ In k (map fst d) -> dict_get eqb d k = Raise KeyError.
Proof.
  induction d as [|[k0 v0] d IH]; simpl; intros H; [reflexivity|].
  destruct (eqb k k0) eqn:E.
  - apply eqb_eq in E. subst. exfalso. apply H. now left.
  - apply IH. intros C. apply H. now right.
Qed.

Lemma dict_get_key (d : @dict K V) (k : K) (v : V) :
  dict_get eqb d k = Ok v -> In k (map fst d).
Proof.
  induction d as [|[k0 v0] d IH]; simpl; [discriminate|].
  destruct (eqb k k0) eqn:E.
  - apply eqb_eq in E. subst. now left.
  - intros H. right. now apply IH.
Qed.

Lemma dict_get_present (d : @dict K V) (k : K) :
  In k (map fst d) -> exists v, dict_get eqb d k = Ok v.
Proof.
  induction d as [|[k0 v0] d IH]; simpl; [contradiction|].
  destruct (eqb k k0) eqn:E; [now eexists|].
  intros [C|C]; [|now apply IH].
  subst. rewrite eqb_same in E. discriminate.
Qed.

End DictUpdate.

Section Identifiers.

Import Omics.

Lemma ordered_ids_keys (r_ids : list string) :
  map fst (map (fun p : Z * string => (snd p, fst p)) (enumerate r_ids))
  = r_ids.
Proof. rewrite map_map. cbn [fst]. apply enumerate_snd. Qed.

(** An index read from the identifier map points back at the
    identifier. *)
Lemma ordered_ids_sound (r_ids : list string) (id : string) (k : Z) :
  dict_get String.eqb (ordered_ids r_ids) id = Ok k ->
  exists n, k = Z.of_nat n /\ nth_error r_ids n = Some id.
Proof.
  unfold ordered_ids, dict_of. intros H.
  apply (dict_get_update_inv String.eqb String.eqb_eq) in H
    as [H|H]; [|discriminate].
  apply in_map_enumerate in H as [n [a [E X]]].
  inversion X; subst. now exists n.
Qed.

Lemma ordered_ids_getitem (r_ids : list string) (id : string) (k : Z) :
  dict_get String.eqb (ordered_ids r_ids) id = Ok k ->
  getitem r_ids k = Ok id.
Proof.
  intros H. apply ordered_ids_sound in H as [n [-> E]].
  now apply getitem_nat.
Qed.

(** X13.  The identifier-to-index map of line 192 inverts the list of
    reaction identifiers: an identifier of the model is mapped to an index
    at which the list holds that identifier (its last position, and its
    only one when identifiers are distinct), and looking up anything else
    raises [KeyError]. *)
Theorem ordered_ids_round_trip (r_ids : list string) (id : string) :
  (In id r_ids ->
   exists k, dict_get String.eqb (ordered_ids r_ids) id = Ok k /\
             getitem r_ids k = Ok id) /\
  (~ In id r_ids ->
   dict_get String.eqb (ordered_ids r_ids) id = Raise KeyError) /\
  (NoDup r_ids -> forall i, nth_error r_ids i = Some id ->
   dict_get String.eqb (ordered_ids r_ids) id = Ok (Z.of_nat i)).
Proof.
  split; [|split].
  - intros H.
    destruct (dict_get_update_some String.eqb String.eqb_eq
                (map (fun p : Z * string => (snd p, fst p))
                   (enumerate r_ids)) [] id) as [k E].
    { right. now rewrite ordered_ids_keys. }
    exists k. split; [exact E|]. now apply ordered_ids_getitem.
  - intros H. unfold ordered_ids, dict_of.
    rewrite (dict_get_update_other String.eqb String.eqb_eq)
      by now rewrite ordered_ids_keys.
    reflexivity.
  - intros N i Hi.
    destruct (dict_get_update_some String.eqb String.eqb_eq
                (map (fun p : Z * string => (snd p, fst p))
                   (enumerate r_ids)) [] id) as [k E].
    { right. rewrite ordered_ids_keys. eapply nth_error_In; eauto. }
    fold (dict_of String.eqb
            (map (fun p : Z * string => (snd p, fst p)) (enumerate r_ids)))
      in E.
    fold (ordered_ids r_ids) in E. rewrite E.
    apply ordered_ids_sound in E as [n [-> En]].
    do 2 f_equal.
    apply (proj1 (NoDup_nth_error r_ids) N); [|congruence].
    apply nth_error_Some. congruence.
Qed.

Lemma index_map_is_ordered_ids_aux (x : list string) :
  Gapfill.index_map x = ordered_ids x.
Proof.
  unfold Gapfill.index_map, ordered_ids.
  rewrite (dict_of_nodup Z.eqb Z.eqb_eq (enumerate x)); [reflexivity|].
  rewrite enumerate_fst. apply range_NoDup.
Qed.

(** X14.  The identifier-to-index maps that [GapfillWrapper.run] builds on
    lines 119-120, through [dict(enumerate(x))] and its inversion, are the
    maps [run_from_omics] builds on line 192. *)
Theorem index_map_is_ordered_ids (x : list string) :
  Gapfill.index_map x = ordered_ids x.
Proof. apply index_map_is_ordered_ids_aux. Qed.

Lemma lookups_decode (r_ids ids : list string) (idx : list Z) :
  mapM (dict_get String.eqb (ordered_ids r_ids)) ids = Ok idx ->
  mapM (getitem r_ids) idx = Ok ids.
Proof.
  revert idx; induction ids as [|id ids IH]; intros idx; simpl.
  - now intros [= <-].
  - destruct (dict_get String.eqb (ordered_ids r_ids) id) as [k|] eqn:E;
      cbn [bind]; [|discriminate].
    destruct (mapM _ ids) as [ks|]; cbn [bind]; [|discriminate].
    intros [= <-]. simpl. rewrite (ordered_ids_getitem _ _ _ E). cbn [bind].
    now rewrite (IH ks).
Qed.

(** X15.  Names and indices round-trip in the gap-fill wrapper: index sets
    obtained by looking reaction identifiers up in the map of line 119 are
    rendered by line 138 as exactly those identifiers. *)
Theorem names_of_looked_up_indices (r_ids : list string)
  (sets : list (list string)) (idx : list (list Z)) :
  mapM (mapM (dict_get String.eqb (Gapfill.index_map r_ids))) sets = Ok idx ->
  Gapfill.names r_ids idx = Ok sets.
Proof.
  rewrite index_map_is_ordered_ids_aux. unfold Gapfill.names.
  revert idx; induction sets as [|s sets IH]; intros idx; simpl.
  - now intros [= <-].
  - destruct (mapM (dict_get String.eqb (ordered_ids r_ids)) s) as [k|] eqn:E;
      cbn [bind]; [|discriminate].
    destruct (mapM _ sets) as [ks|]; cbn [bind]; [|discriminate].
    intros [= <-]. simpl. rewrite (lookups_decode _ _ _ E). cbn [bind].
    now rewrite (IH ks).
Qed.

End Identifiers.

Section IdentifiersWitness.

Lemma names_of_looked_up_indices_witness :
  mapM (mapM (dict_get String.eqb
                (Gapfill.index_map ["R1"; "R2"; "R3"]%string)))
    [["R3"; "R1"]; ["R2"]]%string = Ok [[2; 0]; [1]]%Z /\
  Gapfill.names ["R1"; "R2"; "R3"]%string [[2; 0]; [1]]%Z
  = Ok [["R3"; "R1"]; ["R2"]]%string.
Proof.
  split; [reflexivity|].
  apply (names_of_looked_up_indices ["R1"; "R2"; "R3"]%string
           [["R3"; "R1"]; ["R2"]]%string [[2; 0]; [1]]%Z).
  reflexivity.
Defined.

End IdentifiersWitness.

(** ** Further properties: scores, preparation and suppression *)

Section Scores.

Import Omics.

Lemma mapM_raise {A B : Type} (f : A -> result B) (l : list A) (x : A)
  (e0 : exn) :
  In x l -> f x = Raise e0 ->
  (forall y e, f y = Raise e -> e = e0) ->
  mapM f l = Raise e0.
Proof.
  intros Hin Hx Only. induction l as [|a l IH]; [contradiction|]. simpl.
  destruct (f a) as [b|e] eqn:E; cbn [bind].
  - destruct Hin as [->|Hin]; [congruence|].
    rewrite (IH Hin). reflexivity.
  - f_equal. eapply Only; eauto.
Qed.

(** X16.  Scores given as a dict are read off in the order of the model's
    reactions: the result has one score per reaction identifier, the one
    the dict holds for it, and keys of the dict that name no reaction are
    ignored; this succeeds exactly when every reaction has a score, and a
    reaction without one raises [KeyError]. *)
Theorem to_res_of_dict (r_ids : list string) (d : @dict string Q) :
  ((forall id, In id r_ids -> In id (dict_keys d)) ->
   exists l,
     to_res r_ids (ScoresDict d) = Ok (ResScores l) /\
     length l = length r_ids /\
     forall i id, nth_error r_ids i = Some id ->
       exists q, dict_get String.eqb d id = Ok q /\ nth_error l i = Some q) /\
  ((exists id, In id r_ids /\ ~ In id (dict_keys d)) ->
   to_res r_ids (ScoresDict d) = Raise KeyError).
Proof.
  split.
  - intros H. unfold to_res.
    destruct (mapM_succeeds (dict_get String.eqb d) r_ids) as [l E].
    { intros id Hid.
      apply (dict_get_present String.eqb String.eqb_eq). now apply H. }
    rewrite E. cbn [bind]. exists l. split; [reflexivity|].
    split; [eapply mapM_length; eauto|].
    intros i id Hi. destruct (mapM_nth _ _ _ _ _ E Hi) as [q [Hq Hn]].
    now exists q.
  - intros [id [Hid Hno]]. unfold to_res.
    rewrite (mapM_raise (dict_get String.eqb d) r_ids id KeyError);
      [reflexivity|exact Hid| |].
    + now apply (dict_get_none String.eqb String.eqb_eq).
    + intros y e. apply dict_get_only_KeyError.
Qed.

(** X17.  Scores given as a non-empty list of identifier sequences become
    the lists of the identifiers' indices: rendering those indices through
    the list of reaction identifiers gives the sequences back. *)
Theorem to_res_of_sequences (r_ids : list string) (l : list item)
  (n : list (list Z)) :
  to_res r_ids (ScoresSeq l) = Ok (ResNested n) ->
  mapM (mapM (getitem r_ids)) n = Ok (map iterate l).
Proof.
  unfold to_res. destruct l as [|x l]; [discriminate|].
  destruct (mapM _ (x :: l)) as [n'|] eqn:E; cbn [bind]; [|discriminate].
  intros [= <-]. revert n' E. generalize (x :: l) as items.
  induction items as [|y items IH]; intros n'; simpl.
  - now intros [= <-].
  - destruct (mapM (dict_get String.eqb (ordered_ids r_ids)) (iterate y))
      as [k|] eqn:Ey; cbn [bind]; [|discriminate].
    destruct (mapM _ items) as [ks|]; cbn [bind]; [|discriminate].
    intros [= <-]. simpl. rewrite (lookups_decode _ _ _ Ey). cbn [bind].
    now rewrite (IH ks).
Qed.

Lemma to_res_of_sequences_witness :
  to_res ["R1"; "R2"; "R3"]%string
    (ScoresSeq [ItemIds ["R3"; "R1"]%string; ItemIds ["R2"]%string])
    = Ok (ResNested [[2; 0]; [1]]%Z) /\
  mapM (mapM (getitem ["R1"; "R2"; "R3"]%string)) [[2; 0]; [1]]%Z
  = Ok (map iterate [ItemIds ["R3"; "R1"]%string; ItemIds ["R2"]%string]).
Proof.
  split; [reflexivity|].
  apply (to_res_of_sequences ["R1"; "R2"; "R3"]%string
           [ItemIds ["R3"; "R1"]%string; ItemIds ["R2"]%string]
           [[2; 0]; [1]]%Z).
  reflexivity.
Defined.

(** X18.  A list that holds a reaction identifier itself, rather than a
    sequence of identifiers, is looked up character by character: if one
    character of the string is not a reaction identifier of the model, the
    call raises [KeyError]. *)
Theorem to_res_iterates_strings (r_ids : list string) (s : string)
  (rest : list item) (c : string) :
  In c (chars s) -> ~ In c r_ids ->
  to_res r_ids (ScoresSeq (ItemStr s :: rest)) = Raise KeyError.
Proof.
  intros Hc Hno. unfold to_res. cbn [mapM iterate].
  rewrite (mapM_raise (dict_get String.eqb (ordered_ids r_ids)) (chars s) c
             KeyError); [reflexivity|exact Hc| |].
  - unfold ordered_ids, dict_of.
    rewrite (dict_get_update_other String.eqb String.eqb_eq)
      by now rewrite ordered_ids_keys.
    reflexivity.
  - intros y e. apply dict_get_only_KeyError.
Qed.

Lemma to_res_iterates_strings_witness :
  In "R"%string (chars "R1") /\
  ~ In "R"%string ["R1"; "R2"]%string /\
  to_res ["R1"; "R2"]%string (ScoresSeq [ItemStr "R1"; ItemStr "R2"])
  = Raise KeyError.
Proof.
  assert (N : ~ In "R"%string ["R1"; "R2"]%string)
    by (intros [C|[C|[]]]; discriminate).
  split; [simpl; auto|]. split; [exact N|].
  apply (to_res_iterates_strings ["R1"; "R2"]%string "R1" [ItemStr "R2"]
           "R"%string); [simpl; auto|exact N].
Defined.

End Scores.

(** ** Further properties: the wrappers' entry points *)

Section Preparation.

Import Omics Wrapper.

Variables Arg Strategy Container Props : Type.
Variable construct : strategy_class -> Arg -> result Strategy.
Variable integrate : Strategy -> Container -> result scores.
Variable from_integrated_scores : algorithm -> res -> result Props.
Variable run : Props -> result (list Z).

(** X19.  What [run_from_omics] never gets past.  When the stages before
    the [try] return, the algorithm name is one of the six registered
    names, a strategy given as a list or tuple names one of the five
    registered strategies, the data is a container, a dict, a list or a
    tuple, and a container did not come with a strategy given as a string:
    a string is never looked up in the strategy registry, so the default
    ['continuous'] cannot integrate a container. *)
Theorem prepare_returns_only_if (r_ids : list string)
  (data : omics_data Container) (algorithm_name : string)
  (strategy : strategy_arg Arg Strategy) (properties : Props) :
  prepare Arg Strategy Container Props construct integrate
    from_integrated_scores r_ids data algorithm_name strategy
  = Ok properties ->
  In algorithm_name
     ["fastcore"; "gimme"; "imat"; "tinit"; "corda"; "swiftcore"]%string /\
  (forall name arg, strategy = StratSeq Arg Strategy name arg ->
     In name ["continuous"; "custom"; "threshold"; "default_core";
              "adjusted_score"]%string) /\
  (forall c s, data = DataContainer Container c ->
               strategy <> StratStr Arg Strategy s) /\
  data <> DataOther Container.
Proof.
  unfold prepare. intros H.
  destruct (resolve Arg Strategy construct strategy) as [st|] eqn:ER;
    cbn [bind] in H; [|discriminate].
  destruct (get_scores Strategy Container integrate st data) as [sc|] eqn:ES;
    cbn [bind] in H; [|discriminate].
  destruct (to_res r_ids sc) as [r|]; cbn [bind] in H; [|discriminate].
  destruct (dict_get String.eqb algorithm_instance_map algorithm_name)
    as [alg|] eqn:EA; cbn [bind] in H; [|discriminate].
  split; [|split; [|split]].
  - apply (dict_get_key String.eqb String.eqb_eq) in EA. exact EA.
  - intros name arg ->. unfold resolve, tuple_to_strat in ER.
    destruct (dict_get String.eqb integration_strategy_map name) as [cls|]
      eqn:EN; cbn [bind] in ER; [|discriminate].
    apply (dict_get_key String.eqb String.eqb_eq) in EN. exact EN.
  - intros c s -> ->. cbn in ER. inversion ER; subst. discriminate.
  - intros ->. discriminate.
Qed.

(** X20.  Suppression covers the [try] block and nothing else.  With
    [raise_errors=False] the call raises exactly the exceptions of the
    stages before the [try] (strategy, score and algorithm lookups, the
    property factory), and then prints nothing; an exception of the run
    itself or of the rendering of its result never escapes. *)
Theorem suppression_covers_only_the_try (r_ids : list string)
  (data : omics_data Container) (algorithm_name : string)
  (strategy : strategy_arg Arg Strategy) (e : exn) :
  (returned (call Arg Strategy Container Props construct integrate
               from_integrated_scores run r_ids data algorithm_name
               (Some strategy) (Some false)) = Raise e
   <-> prepare Arg Strategy Container Props construct integrate
         from_integrated_scores r_ids data algorithm_name strategy
       = Raise e) /\
  (prepare Arg Strategy Container Props construct integrate
     from_integrated_scores r_ids data algorithm_name strategy = Raise e ->
   forall raise_errors,
     call Arg Strategy Container Props construct integrate
       from_integrated_scores run r_ids data algorithm_name
       (Some strategy) raise_errors
     = {| printed := []; returned := Raise e |}).
Proof.
  unfold call. split.
  - destruct (prepare _ _ _ _ _ _ _ r_ids data algorithm_name strategy)
      as [p|e']; cbn [returned].
    + unfold run_from_omics.
      destruct (algorithm_result <- run p ;; render r_ids algorithm_result);
        cbn [returned]; split; discriminate.
    + split; intros [= ->]; reflexivity.
  - intros -> raise_errors. reflexivity.
Qed.

End Preparation.

Section Rendering.

Import Wrapper.

Lemma mapM_in {A B : Type} (f : A -> result B) (l : list A) (l' : list B)
  (y : B) :
  mapM f l = Ok l' ->
  (In y l' <-> exists x, In x l /\ f x = Ok y).
Proof.
  intros H. split.
  - intros Hy. apply In_nth_error in Hy as [p Hp].
    destruct (mapM_nth_inv _ _ _ _ _ H Hp) as [x [Hx Fx]].
    exists x. split; [eapply nth_error_In; eauto|exact Fx].
  - intros [x [Hx Fx]]. apply In_nth_error in Hx as [p Hp].
    destruct (mapM_nth _ _ _ _ _ H Hp) as [y' [Fy Hy]].
    assert (y' = y) by congruence. subst.
    eapply nth_error_In; eauto.
Qed.

Lemma dict_of_function (g : string -> bool) (keys : list string)
  (k : string) :
  dict_get String.eqb
    (dict_of String.eqb (map (fun r => (r, g r)) keys)) k
  = if existsb (String.eqb k) keys then Ok (g k) else Raise KeyError.
Proof.
  assert (Keys : map fst (map (fun r => (r, g r)) keys) = keys)
    by (rewrite map_map; apply map_id).
  destruct (existsb (String.eqb k) keys) eqn:X.
  - apply existsb_exists in X as [x [Hx Ex]]. apply String.eqb_eq in Ex.
    subst x.
    destruct (dict_get_update_some String.eqb String.eqb_eq
                (map (fun r => (r, g r)) keys) [] k) as [v E];
      [right; now rewrite Keys|].
    unfold dict_of. rewrite E.
    apply (dict_get_update_inv String.eqb String.eqb_eq) in E as [E|E];
      [|discriminate].
    apply in_map_iff in E as [r [E _]]. now inversion E.
  - unfold dict_of.
    rewrite (dict_get_update_other String.eqb String.eqb_eq); [reflexivity|].
    rewrite Keys. intros C.
    assert (T : existsb (String.eqb k) keys = true); [|congruence].
    apply existsb_exists. exists k. split; [exact C|apply String.eqb_refl].
Qed.

(** X21.  The inclusion map of a successful run.  Rendering succeeds
    exactly when every returned index is within the list of reaction
    identifiers (negative indices counting from the end); the map then has
    the reaction identifiers as its keys, and an identifier is mapped to
    [True] exactly when one of the returned indices points at it. *)
Theorem render_inclusion_map (r_ids : list string)
  (algorithm_result : list Z) :
  ((forall k, In k algorithm_result -> norm_index (length r_ids) k <> None) ->
   exists d,
     render r_ids algorithm_result = Ok d /\
     (forall r, In r r_ids ->
        exists b, dict_get String.eqb d r = Ok b /\
                  (b = true <->
                   exists k, In k algorithm_result /\
                             getitem r_ids k = Ok r)) /\
     (forall r, ~ In r r_ids -> dict_get String.eqb d r = Raise KeyError)) /\
  ((exists k, In k algorithm_result /\ norm_index (length r_ids) k = None) ->
   render r_ids algorithm_result = Raise IndexError).
Proof.
  split.
  - intros H. unfold render.
    destruct (mapM_succeeds (getitem r_ids) algorithm_result) as [names E].
    { intros k Hk. unfold getitem.
      destruct (norm_index (length r_ids) k) as [p|] eqn:N;
        [|now destruct (H k Hk)].
      pose proof (norm_index_bound _ _ _ N) as B.
      destruct (nth_error r_ids p) as [x|] eqn:Ex; [now exists x|].
      apply nth_error_None in Ex. lia. }
    rewrite E. cbn [bind]. eexists. split; [reflexivity|]. split.
    + intros r Hr. rewrite dict_of_function.
      replace (existsb (String.eqb r) r_ids) with true
        by (symmetry; apply existsb_exists; exists r; split;
            [exact Hr|apply String.eqb_refl]).
      eexists. split; [reflexivity|].
      rewrite <- (mapM_in _ _ _ r E). rewrite existsb_exists. split.
      * intros [x [Hx Ex]]. apply String.eqb_eq in Ex. now subst.
      * intros Hin. exists r. split; [exact Hin|apply String.eqb_refl].
    + intros r Hr. rewrite dict_of_function.
      destruct (existsb (String.eqb r) r_ids) eqn:X; [|reflexivity].
      apply existsb_exists in X as [x [Hx Ex]]. apply String.eqb_eq in Ex.
      subst. contradiction.
  - intros [k [Hk N]]. unfold render.
    rewrite (mapM_raise (getitem r_ids) algorithm_result k IndexError);
      [reflexivity|exact Hk| |].
    + unfold getitem. now rewrite N.
    + intros y e. apply getitem_only_IndexError.
Qed.

(** X22.  A returned index outside the list of reaction identifiers is
    handled like a failure of the run: the cause is printed, and the call
    raises [IndexError], or returns the all-[False] map when
    [raise_errors=False]. *)
Theorem run_from_omics_bad_index (r_ids : list string)
  (algorithm_result : list Z) (k : Z) :
  In k algorithm_result -> norm_index (length r_ids) k = None ->
  run_from_omics r_ids (Ok algorithm_result) (Some false)
  = {| printed := [("Model reconstruction failed with exception:"%string,
                    IndexError)];
       returned := Ok (all_false r_ids) |} /\
  run_from_omics r_ids (Ok algorithm_result) None
  = {| printed := [("Model reconstruction failed with exception:"%string,
                    IndexError)];
       returned := Raise IndexError |}.
Proof.
  intros Hk N.
  assert (E : render r_ids algorithm_result = Raise IndexError).
  { unfold render.
    rewrite (mapM_raise (getitem r_ids) algorithm_result k IndexError);
      [reflexivity|exact Hk| |].
    - unfold getitem. now rewrite N.
    - intros y e. apply getitem_only_IndexError. }
  unfold run_from_omics. cbn [bind]. rewrite E. split; reflexivity.
Qed.

Lemma run_from_omics_bad_index_witness :
  In 3%Z [0; 3]%Z /\ norm_index (length ["R1"; "R2"]%string) 3 = None /\
  run_from_omics ["R1"; "R2"]%string (Ok [0; 3]%Z) (Some false)
  = {| printed := [("Model reconstruction failed with exception:"%string,
                    IndexError)];
       returned := Ok (all_false ["R1"; "R2"]%string) |} /\
  run_from_omics ["R1"; "R2"]%string (Ok [0; 3]%Z) None
  = {| printed := [("Model reconstruction failed with exception:"%string,
                    IndexError)];
       returned := Raise IndexError |}.
Proof.
  split; [simpl; auto|]. split; [reflexivity|].
  apply (run_from_omics_bad_index ["R1"; "R2"]%string [0; 3]%Z 3%Z);
    [simpl; auto|reflexivity].
Defined.

End Rendering.

Section GapfillKeywords.

Import Gapfill.

Variable V : Type.
Variable empty_dict : V.

(** X23.  Keyword arguments win.  In the keywords [GapfillWrapper.run]
    hands on, a keyword of the call is found with the value of the call;
    only a name the call does not give falls back to [avbl_fluxes] or to
    [ls_override] (the empty dict when that is [None]), so a keyword
    [lsystem_args] replaces [ls_override]. *)
Theorem prop_kwargs_precedence (avbl_fluxes : V) (ls_override : option V)
  (kwargs : @dict string V) (k : string) :
  NoDup (dict_keys kwargs) ->
  dict_get String.eqb (prop_kwargs V empty_dict avbl_fluxes ls_override kwargs)
    k
  = match dict_get String.eqb kwargs k with
    | Ok v => Ok v
    | Raise _ =>
        dict_get String.eqb
          [("avbl_fluxes"%string, avbl_fluxes);
           ("lsystem_args"%string,
            match ls_override with
            | None => empty_dict
            | Some v => v
            end)] k
    end.
Proof.
  intros N. unfold prop_kwargs.
  destruct (dict_get String.eqb kwargs k) as [v|e] eqn:E.
  - apply (dict_get_update_nodup String.eqb String.eqb_eq); [exact N|].
    clear N. induction kwargs as [|[k0 v0] kw IH]; simpl in E;
      [discriminate|].
    destruct (String.eqb_spec k k0) as [->|D].
    + inversion E; subst. now left.
    + right. now apply IH.
  - apply (dict_get_update_other String.eqb String.eqb_eq).
    intros C. apply (dict_get_present String.eqb String.eqb_eq) in C
      as [v C]. congruence.
Qed.

Variable dec : @dict string (V -> @dict string Z -> @dict string Z -> result V).
Variables rx_map mt_map : @dict string Z.

(** X24.  Decoding keeps the keywords: when the decoders succeed, the
    decoded keywords have the same names in the same order, and a keyword
    without a decoder is passed on unchanged. *)
Theorem decode_keeps_keywords (kw decoded : list (string * V)) :
  mapM (decode V dec rx_map mt_map) kw = Ok decoded ->
  map fst decoded = map fst kw /\
  forall i k v, nth_error kw i = Some (k, v) ->
                ~ In k (dict_keys dec) ->
                nth_error decoded i = Some (k, v).
Proof.
  revert decoded; induction kw as [|[k0 v0] kw IH]; intros decoded; simpl.
  - intros [= <-]. split; [reflexivity|]. intros [|i]; discriminate.
  - destruct (decode V dec rx_map mt_map (k0, v0)) as [[k1 v1]|] eqn:E;
      cbn [bind]; [|discriminate].
    destruct (mapM _ kw) as [ds|]; cbn [bind]; [|discriminate].
    intros [= <-]. destruct (IH ds eq_refl) as [IK IV].
    unfold decode in E. cbn [fst snd] in E.
    split.
    + simpl. f_equal; [|exact IK].
      destruct (dict_get String.eqb dec k0) as [d|].
      * destruct (d v0 rx_map mt_map); cbn [bind] in E; [|discriminate].
        now inversion E.
      * now inversion E.
    + intros [|i] k v; simpl.
      * intros [= <- <-] Hno.
        rewrite (dict_get_none String.eqb String.eqb_eq _ _ Hno) in E.
        congruence.
      * apply IV.
Qed.

End GapfillKeywords.

Lemma prop_kwargs_precedence_witness :
  NoDup (dict_keys [("lsystem_args"%string, 7%Z)]) /\
  dict_get String.eqb
    (Gapfill.prop_kwargs Z 0%Z 1%Z (Some 2%Z) [("lsystem_args"%string, 7%Z)])
    "lsystem_args"%string
  = Ok 7%Z.
Proof.
  assert (N : NoDup (dict_keys [("lsystem_args"%string, 7%Z)]))
    by (simpl; repeat constructor; simpl; tauto).
  split; [exact N|].
  apply (prop_kwargs_precedence Z 0%Z 1%Z (Some 2%Z)
           [("lsystem_args"%string, 7%Z)] "lsystem_args"%string N).
Defined.

Section PreparationWitness.

Import Omics.

Lemma prepare_returns_only_if_witness :
  let construct := fun (_ : strategy_class) (_ : Q) => Ok tt in
  let integrate := fun (_ : unit) (_ : unit) => Ok (ScoresIter ["R2"%string]) in
  let factory := fun (_ : algorithm) (r : res) => Ok r in
  let data := DataContainer unit tt in
  let strategy := StratSeq Q unit "threshold"%string (5 # 1) in
  prepare Q unit unit res construct integrate factory ["R1"; "R2"]%string
    data "gimme"%string strategy
  = Ok (ResFlat [1%Z]) /\
  In "gimme"%string
     ["fastcore"; "gimme"; "imat"; "tinit"; "corda"; "swiftcore"]%string /\
  (forall name arg, strategy = StratSeq Q unit name arg ->
     In name ["continuous"; "custom"; "threshold"; "default_core";
              "adjusted_score"]%string) /\
  (forall c s, data = DataContainer unit c -> strategy <> StratStr Q unit s) /\
  data <> DataOther unit.
Proof.
  intros construct integrate factory data strategy.
  split; [reflexivity|].
  apply (prepare_returns_only_if Q unit unit res construct integrate factory
           ["R1"; "R2"]%string data "gimme"%string strategy (ResFlat [1%Z])).
  reflexivity.
Defined.

Lemma decode_keeps_keywords_witness :
  let dec := [("avbl_fluxes"%string,
               fun (v : Z) (rx mt : @dict string Z) => Ok (v + 1)%Z)] in
  let kw := [("avbl_fluxes"%string, 1%Z); ("lsystem_args"%string, 2%Z)] in
  let decoded := [("avbl_fluxes"%string, 2%Z); ("lsystem_args"%string, 2%Z)] in
  mapM (Gapfill.decode Z dec [] []) kw = Ok decoded /\
  map fst decoded = map fst kw /\
  forall i k v, nth_error kw i = Some (k, v) ->
                ~ In k (dict_keys dec) ->
                nth_error decoded i = Some (k, v).
Proof.
  intros dec kw decoded. split; [reflexivity|].
  apply (decode_keeps_keywords Z dec [] [] kw decoded). reflexivity.
Defined.

End PreparationWitness.
